(** * SmartSpend AI: the expense tracker's state, analyser and aggregator

    A shallow embedding of the TypeScript sources

      - [types.ts]                  (Category, Transaction, ExpenseSummary,
                                     AnalysisResult),
      - [constants.ts]              (CATEGORY_COLORS),
      - [services/geminiService.ts] (analyzeStatement),
      - [App.tsx]                   (processAnalysis, handleFileUpload,
                                     handlePasteSubmit, categorySummary,
                                     totalSpent, clearData),

    followed by the properties of the specification that concern them.

    Conventions of the embedding.
      - A JavaScript string is the list of its UTF-16 code units.
      - A JavaScript [number] is an IEEE-754 binary64 value: the standard
        library's [spec_float] with precision 53 and maximal exponent 1024,
        [+] and [-] being [SFadd] and [SFsub] (round to nearest, ties to
        even).
      - React state is a record; a handler is a function from the state
        before the event to the state after it, paired with the requests it
        sent to the external service.  The asynchronous [processAnalysis]
        is run to completion: the interface disables its inputs while a
        request is in flight.
      - The external service and [JSON.parse] are parameters. *)

From Stdlib Require Import ZArith NArith List Bool Lia Ascii String.
From Stdlib Require Import Permutation Sorted RelationClasses FinFun.
From Stdlib Require Import Floats.SpecFloat Floats.PrimFloat Floats.FloatOps.
Import ListNotations.

(* ================================================================= *)
(** * The JavaScript values the sources use *)

Module JS.

(** A string: its UTF-16 code units. *)
Definition jsstring : Type := list N.

(** The code units of an ASCII literal. *)
Definition js (s : string) : jsstring :=
  map N_of_ascii (list_ascii_of_string s).

Definition jsstring_eqb (s t : jsstring) : bool :=
  if list_eq_dec N.eq_dec s t then true else false.

(** [s || d] on strings: the empty string is the only falsy string. *)
Definition or_else (s d : jsstring) : jsstring :=
  match s with
  | [] => d
  | _ :: _ => s
  end.

(** ECMA-262 WhiteSpace and LineTerminator code points, the ones
    [String.prototype.trim] strips: TAB, LF, VT, FF, CR, SP, NBSP, the
    Space_Separator category, LS, PS and ZWNBSP. *)
Definition isWhiteSpace (c : N) : bool :=
  ((9 <=? c) && (c <=? 13) || (c =? 32) || (c =? 160) || (c =? 0x1680)
   || (0x2000 <=? c) && (c <=? 0x200A)
   || (c =? 0x2028) || (c =? 0x2029) || (c =? 0x202F) || (c =? 0x205F)
   || (c =? 0x3000) || (c =? 0xFEFF))%N.

Fixpoint trimStart (s : jsstring) : jsstring :=
  match s with
  | [] => []
  | c :: s' => if isWhiteSpace c then trimStart s' else s
  end.

Definition trimEnd (s : jsstring) : jsstring := rev (trimStart (rev s)).

(** [s.trim()] *)
Definition trim (s : jsstring) : jsstring := trimEnd (trimStart s).

(** [s.split(sep)] for a separator of one code unit. *)
Fixpoint split (sep : N) (s : jsstring) : list jsstring :=
  match s with
  | [] => [[]]
  | c :: s' =>
      if (c =? sep)%N then [] :: split sep s'
      else match split sep s' with
           | p :: ps => (c :: p) :: ps
           | [] => [[c]]
           end
  end.

Definition comma : N := 44.
Definition newline : N := 10.

End JS.
Import JS.

(* ================================================================= *)
(** * Numbers: IEEE-754 binary64 *)

Module Number.

(** A [number]. *)
Definition t : Type := spec_float.

Definition zero : t := S754_zero false.

(** [x + y] and [x - y] *)
Definition add (x y : t) : t := SFadd prec emax x y.
Definition sub (x y : t) : t := SFsub prec emax x y.

(** [x < y], [x >= y] and [x === y] *)
Definition lt (x y : t) : bool := SFltb x y.
Definition ge (x y : t) : bool := SFleb y x.
Definition eqb (x y : t) : bool := SFeqb x y.

(** [Number.isNaN(x)] and [Number.isFinite(x)] *)
Definition isNaN (x : t) : bool :=
  match x with
  | S754_nan => true
  | _ => false
  end.

Definition isFinite (x : t) : bool :=
  match x with
  | S754_zero _ | S754_finite _ _ _ => true
  | S754_infinity _ | S754_nan => false
  end.

(** A representation the format admits.  Every value a [number] can hold
    has exactly one; [spec_float] has others, which no computation on
    valid representations produces. *)
Definition valid (x : t) : bool := valid_binary prec emax x.

(** The number an integer denotes: the integer itself, rounded when its
    magnitude exceeds 2^53. *)
Definition ofZ (z : Z) : t := binary_normalize prec emax z 0 false.

(** The integer part of a number (0 for NaN and the infinities). *)
Definition toZ (x : t) : Z :=
  match x with
  | S754_finite s m e => cond_Zopp s (Z.shiftl (Zpos m) e)
  | _ => 0%Z
  end.

(** [Number.MAX_SAFE_INTEGER] *)
Definition MAX_SAFE_INTEGER : Z := (2 ^ 53 - 1)%Z.

(** [Number.isSafeInteger(x)]: the value of [x] is an integer of
    magnitude at most 2^53 - 1.  [x] is then the number of that integer,
    or it is [-0], whose value is the integer 0. *)
Definition isSafeInteger (x : t) : Prop :=
  (ofZ (toZ x) = x \/ x = S754_zero true)
  /\ (Z.abs (toZ x) <= MAX_SAFE_INTEGER)%Z.

(** [[x1, ..., xn].reduce((sum, x) => sum + x, 0)] *)
Definition sum (xs : list t) : t := fold_left add xs zero.

End Number.
Abbreviation number := Number.t.

(* ================================================================= *)
(** * Objects used as maps, and arrays *)

Module Obj.

(** A [Record<string, V>]: the own properties in insertion order.  None
    of the keys used below is an array index or a property of
    [Object.prototype], so insertion order is the enumeration order and
    a lookup finds own properties only. *)
Definition t (V : Type) : Type := list (jsstring * V).

(** [o[k]]; [None] is [undefined]. *)
Fixpoint get {V} (o : t V) (k : jsstring) : option V :=
  match o with
  | [] => None
  | (k', v) :: o' => if jsstring_eqb k' k then Some v else get o' k
  end.

(** [o[k] = v]: an existing property keeps its place, a new one goes
    last. *)
Fixpoint set {V} (o : t V) (k : jsstring) (v : V) : t V :=
  match o with
  | [] => [(k, v)]
  | (k', v') :: o' =>
      if jsstring_eqb k' k then (k', v) :: o' else (k', v') :: set o' k v
  end.

(** [Object.keys(o)] and [Object.values(o)] *)
Definition keys {V} (o : t V) : list jsstring := map fst o.
Definition values {V} (o : t V) : list V := map snd o.

End Obj.

Module Array.

(** The step of a stable insertion: [x] precedes every element of [l]
    in the array, and moves behind [y] exactly when [comparefn(x, y)]
    is positive. *)
Fixpoint insert {A} (comparefn : A -> A -> number) (x : A) (l : list A)
  : list A :=
  match l with
  | [] => [x]
  | y :: l' =>
      if Number.lt Number.zero (comparefn x y)
      then y :: insert comparefn x l'
      else x :: y :: l'
  end.

(** [l.sort(comparefn)].  [Array.prototype.sort] is stable, and for a
    consistent [comparefn] its result is the one stable arrangement,
    which insertion computes.  For a [comparefn] that is not consistent
    the order of the result is left to the engine: what is stated below
    about the order of a sorted array carries the condition under which
    [comparefn] is consistent. *)
Definition sort {A} (comparefn : A -> A -> number) (l : list A) : list A :=
  fold_right (insert comparefn) [] l.

End Array.

(* ================================================================= *)
(** * types.ts *)

Inductive Category : Type :=
| FOOD | SHOPPING | HEALTH | TRANSPORT
| UTILITIES | ENTERTAINMENT | HOUSING | MISC.

(** The string value of each member of the enum. *)
Definition Category_value (c : Category) : jsstring :=
  match c with
  | FOOD => js "Food & Dining"
  | SHOPPING => js "Clothing & Shopping"
  | HEALTH => js "Health & Wellness"
  | TRANSPORT => js "Travel & Transport"
  | UTILITIES => js "Utilities & Bills"
  | ENTERTAINMENT => js "Entertainment"
  | HOUSING => js "Housing & Rent"
  | MISC => js "Miscellaneous"
  end.

(** [Object.values(Category)] *)
Definition Category_values : list Category :=
  [FOOD; SHOPPING; HEALTH; TRANSPORT; UTILITIES; ENTERTAINMENT; HOUSING; MISC].

Module Transaction.
Record t : Type := make {
  id : jsstring;
  date : jsstring;
  merchant : jsstring;
  amount : number;
  category : Category;
  originalDescription : jsstring
}.
End Transaction.
Abbreviation Transaction := Transaction.t.

(** [count] is a [number] that only ever holds a natural number, the
    length of part of an array: it starts at 0 and grows by 1, exactly
    (lemma [count_increment_exact]). *)
Module ExpenseSummary.
Record t : Type := make {
  category : Category;
  total : number;
  count : nat;
  color : jsstring
}.
End ExpenseSummary.
Abbreviation ExpenseSummary := ExpenseSummary.t.

Module AnalysisResult.
Record t : Type := make {
  transactions : list Transaction;
  totalAmount : number;
  currency : jsstring
}.
End AnalysisResult.
Abbreviation AnalysisResult := AnalysisResult.t.

(* ================================================================= *)
(** * constants.ts *)

Definition CATEGORY_COLORS (c : Category) : jsstring :=
  match c with
  | FOOD => js "#F87171"
  | SHOPPING => js "#60A5FA"
  | HEALTH => js "#34D399"
  | TRANSPORT => js "#FBBF24"
  | UTILITIES => js "#A78BFA"
  | ENTERTAINMENT => js "#F472B6"
  | HOUSING => js "#FB923C"
  | MISC => js "#94A3B8"
  end.

(* ================================================================= *)
(** * services/geminiService.ts *)

(** The parsed form of a JSON text. *)
#[local] Unset Elimination Schemes.
Inductive json : Type :=
| JNull
| JBool (b : bool)
| JNumber (n : number)
| JString (s : jsstring)
| JArray (items : list json)
| JObject (props : Obj.t json).
#[local] Set Elimination Schemes.

(** The image form of the input, [{ data, mimeType }]; [data] is absent
    when the data URL it was cut from had no comma. *)
Record InlineData : Type := {
  data : option jsstring;
  mimeType : jsstring
}.

(** [string | { data: string; mimeType: string }] *)
Inductive Input : Type :=
| Text (text : jsstring)
| Image (inlineData : InlineData).

(** The [contents] of a request: the prompt string, or one content made
    of a text part and the inline data. *)
Inductive Contents : Type :=
| Prompt (text : jsstring)
| Parts (text : jsstring) (inlineData : InlineData).

(** What [ai.models.generateContent] is called with.  The [config]
    (system instruction, response MIME type, response schema,
    temperature) is the same in every call and is left out. *)
Record Request : Type := {
  model : jsstring;
  contents : Contents
}.

(** What awaiting [ai.models.generateContent] gives: an exception, or a
    response with its [text]. *)
Inductive Reply : Type :=
| Throws (cause : jsstring)
| Responds (text : jsstring).

Record Error : Type := { message : jsstring }.

(** The outcome of an [async] function. *)
Inductive Promise (A : Type) : Type :=
| Fulfilled (value : A)
| Rejected (reason : Error).
Arguments Fulfilled {A} value.
Arguments Rejected {A} reason.

(** A computation that talks to the service: the requests it sent, in
    order, and its result. *)
Record Run (A : Type) : Type := {
  sent : list Request;
  result : A
}.
Arguments sent {A} r.
Arguments result {A} r.

Definition prompt (input : Input) : Contents :=
  match input with
  | Text text =>
      Prompt (js "Analyze this Indian bank statement text: "
                ++ [newline; newline] ++ text)
  | Image inlineData =>
      Parts (js "Extract transactions from this Indian bank statement image and categorize them into INR values.")
            inlineData
  end.

(** The argument of [ai.models.generateContent]. *)
Definition request (input : Input) : Request :=
  {| model := js "gemini-3-flash-preview"; contents := prompt input |}.

Definition failureMessage : jsstring :=
  js "Failed to analyze statement. Please ensure the input is clear.".

Section Analyzer.

(** [JSON.parse] yields a value of type [any], and [result as
    AnalysisResult] asserts its type without a check at run time: the
    type [P] of parsed payloads is a parameter. *)
Variable P : Type.

(** [JSON.parse]; [None] is its [SyntaxError]. *)
Variable JSON_parse : jsstring -> option P.

(** [analyzeStatement(input)], given the behaviour of the service. *)
Definition analyzeStatement (generateContent : Request -> Reply)
  (input : Input) : Run (Promise P) :=
  {| sent := [request input];
     result :=
       match generateContent (request input) with
       | Responds text =>
           match JSON_parse text with
           | Some result => Fulfilled result
           | None => Rejected {| message := failureMessage |}
           end
       | Throws _ => Rejected {| message := failureMessage |}
       end |}.

End Analyzer.

(** ** The response schema sent with every request *)

Definition isString (v : json) : bool :=
  match v with JString _ => true | _ => false end.

Definition isNumber (v : json) : bool :=
  match v with JNumber _ => true | _ => false end.

(** [{ type: Type.STRING, enum: Object.values(Category) }] *)
Definition isCategory (v : json) : bool :=
  match v with
  | JString s => existsb (fun c => jsstring_eqb (Category_value c) s)
                   Category_values
  | _ => false
  end.

(** A property that must be present and of the given type. *)
Definition required (o : Obj.t json) (k : string) (type : json -> bool)
  : bool :=
  match Obj.get o (js k) with
  | Some v => type v
  | None => false
  end.

(** A property that is of the given type when present. *)
Definition optional (o : Obj.t json) (k : string) (type : json -> bool)
  : bool :=
  match Obj.get o (js k) with
  | Some v => type v
  | None => true
  end.

(** The [items] schema of [transactions]. *)
Definition transactionSchema (v : json) : bool :=
  match v with
  | JObject o =>
      required o "id" isString && required o "date" isString
      && required o "merchant" isString && required o "amount" isNumber
      && required o "category" isCategory
      && optional o "originalDescription" isString
  | _ => false
  end.

Definition isArrayOf (items : json -> bool) (v : json) : bool :=
  match v with
  | JArray vs => forallb items vs
  | _ => false
  end.

(** [responseSchema] *)
Definition responseSchema (v : json) : bool :=
  match v with
  | JObject o =>
      required o "transactions" (isArrayOf transactionSchema)
      && required o "totalAmount" isNumber
      && optional o "currency" isString
  | _ => false
  end.

(* ================================================================= *)
(** * App.tsx *)

(** ['text' | 'file'] *)
Inductive InputMode : Type := mode_text | mode_file.

(** The state of the component, one field per [useState]. *)
Record State : Type := {
  transactions : list Transaction;
  loading : bool;
  error : option jsstring;
  pastedText : jsstring;
  inputMode : InputMode
}.

(** The initial values given to [useState]. *)
Definition initialState : State :=
  {| transactions := []; loading := false; error := None;
     pastedText := []; inputMode := mode_file |}.

Definition setTransactions (f : list Transaction -> list Transaction)
  (st : State) : State :=
  {| transactions := f (transactions st); loading := loading st;
     error := error st; pastedText := pastedText st;
     inputMode := inputMode st |}.

Definition setLoading (b : bool) (st : State) : State :=
  {| transactions := transactions st; loading := b; error := error st;
     pastedText := pastedText st; inputMode := inputMode st |}.

Definition setError (e : option jsstring) (st : State) : State :=
  {| transactions := transactions st; loading := loading st; error := e;
     pastedText := pastedText st; inputMode := inputMode st |}.

Definition setPastedText (s : jsstring) (st : State) : State :=
  {| transactions := transactions st; loading := loading st;
     error := error st; pastedText := s; inputMode := inputMode st |}.

(** The file of a change event, with what [FileReader.readAsDataURL]
    reads from it. *)
Record File : Type := {
  dataURL : jsstring;
  type : jsstring
}.

(** A handler that returns without calling the service. *)
Definition idle (st : State) : Run State := {| sent := []; result := st |}.

Section Handlers.

Variable JSON_parse : jsstring -> option AnalysisResult.

(** What the service answers to this call. *)
Variable generateContent : Request -> Reply.

Definition processAnalysis (input : Input) (st : State) : Run State :=
  let st := setLoading true st in
  let st := setError None st in
  let call := analyzeStatement AnalysisResult JSON_parse generateContent input in
  let st :=
    match result call with
    | Fulfilled result =>
        setTransactions
          (fun prev => prev ++ AnalysisResult.transactions result) st
    | Rejected err =>
        setError
          (Some (or_else (message err)
                   (js "An error occurred during analysis."))) st
    end in
  {| sent := sent call; result := setLoading false st |}.

(** [handleFileUpload(e)], [files] being [e.target.files?.[0]]. *)
Definition handleFileUpload (files : option File) (st : State) : Run State :=
  match files with
  | None => idle st
  | Some file =>
      let base64Data := nth_error (split comma (dataURL file)) 1 in
      processAnalysis
        (Image {| data := base64Data; mimeType := type file |}) st
  end.

Definition handlePasteSubmit (st : State) : Run State :=
  match trim (pastedText st) with
  | [] => idle st
  | _ :: _ => processAnalysis (Text (pastedText st)) st
  end.

End Handlers.

(** The body of the [forEach] in [categorySummary]. *)
Definition addToSummary (summary : Obj.t ExpenseSummary) (t : Transaction)
  : Obj.t ExpenseSummary :=
  let k := Category_value (Transaction.category t) in
  let summary :=
    match Obj.get summary k with
    | None =>
        Obj.set summary k
          {| ExpenseSummary.category := Transaction.category t;
             ExpenseSummary.total := Number.zero;
             ExpenseSummary.count := 0;
             ExpenseSummary.color :=
               or_else (CATEGORY_COLORS (Transaction.category t))
                       (js "#94A3B8") |}
    | Some _ => summary
    end in
  match Obj.get summary k with
  | Some s =>
      Obj.set summary k
        {| ExpenseSummary.category := ExpenseSummary.category s;
           ExpenseSummary.total :=
             Number.add (ExpenseSummary.total s) (Transaction.amount t);
           ExpenseSummary.count := ExpenseSummary.count s + 1;
           ExpenseSummary.color := ExpenseSummary.color s |}
  | None => summary
  end.

(** [(a, b) => b.total - a.total] *)
Definition byTotalDescending (a b : ExpenseSummary) : number :=
  Number.sub (ExpenseSummary.total b) (ExpenseSummary.total a).

Definition categorySummary (transactions : list Transaction)
  : list ExpenseSummary :=
  let summary := fold_left addToSummary transactions [] in
  Array.sort byTotalDescending (Obj.values summary).

Definition totalSpent (transactions : list Transaction) : number :=
  fold_left (fun sum t => Number.add sum (Transaction.amount t))
    transactions Number.zero.

(** [clearData()], [confirmed] being the answer of [window.confirm]. *)
Definition clearData (confirmed : bool) (st : State) : State :=
  if confirmed then
    setError None (setPastedText [] (setTransactions (fun _ => []) st))
  else st.

(** ** The chart *)

(** An element of [chartData]: [{ name: s.category, value: s.total }]. *)
Module ChartEntry.
Record t : Type := make {
  name : Category;
  value : number
}.
End ChartEntry.
Abbreviation ChartEntry := ChartEntry.t.

Definition chartData (transactions : list Transaction) : list ChartEntry :=
  map (fun s => {| ChartEntry.name := ExpenseSummary.category s;
                   ChartEntry.value := ExpenseSummary.total s |})
    (categorySummary transactions).

(** The [fill] of the [Cell] of an entry:
    [CATEGORY_COLORS[entry.name as Category] || '#94A3B8']. *)
Definition cellFill (entry : ChartEntry) : jsstring :=
  or_else (CATEGORY_COLORS (ChartEntry.name entry)) (js "#94A3B8").

(** ** What is rendered *)

(** [e && ...] for [e : string | null]: [null] and the empty string are
    falsy. *)
Definition truthy (e : option jsstring) : bool :=
  match e with
  | Some (_ :: _) => true
  | Some [] | None => false
  end.

(** [transactions.length > 0]: the Clear All button, the chart and the
    table are rendered. *)
Definition resultsShown (st : State) : bool :=
  (0 <? List.length (transactions st))%nat.

(** [!loading] in the other branch: the No Transactions Yet panel. *)
Definition emptyStateShown (st : State) : bool :=
  negb (resultsShown st) && negb (loading st).

(** [{error && ...}]: the error banner. *)
Definition errorShown (st : State) : bool := truthy (error st).

(** [{loading && ...}]: the overlay that covers the page. *)
Definition overlayShown (st : State) : bool := loading st.

(** [disabled={loading}] of the file input and of the text area. *)
Definition inputDisabled (st : State) : bool := loading st.

(** [disabled={loading || !pastedText.trim()}] of the Analyze Text
    button. *)
Definition analyzeDisabled (st : State) : bool :=
  loading st || match trim (pastedText st) with [] => true | _ :: _ => false end.

(** ** Events *)

Definition setInputMode (m : InputMode) (st : State) : State :=
  {| transactions := transactions st; loading := loading st;
     error := error st; pastedText := pastedText st; inputMode := m |}.

(** What the user does, with what the service answers when the event
    leads to a request. *)
Inductive Event : Type :=
| FileChanged (files : option File) (generateContent : Request -> Reply)
| AnalyzeClicked (generateContent : Request -> Reply)
| TextChanged (value : jsstring)
| ModeClicked (mode : InputMode)
| ClearClicked (confirmed : bool).

(** The handler the component attaches to each event: [onChange] of the
    file input, [onClick] of Analyze Text, [onChange] of the text area,
    [onClick] of the two mode buttons, [onClick] of Clear All. *)
Definition handle (JSON_parse : jsstring -> option AnalysisResult)
  (e : Event) (st : State) : Run State :=
  match e with
  | FileChanged files generateContent =>
      handleFileUpload JSON_parse generateContent files st
  | AnalyzeClicked generateContent =>
      handlePasteSubmit JSON_parse generateContent st
  | TextChanged value => idle (setPastedText value st)
  | ModeClicked mode => idle (setInputMode mode st)
  | ClearClicked confirmed => idle (clearData confirmed st)
  end.

(** A session: the events in order, each handled to completion. *)
Fixpoint session (JSON_parse : jsstring -> option AnalysisResult)
  (events : list Event) (st : State) : Run State :=
  match events with
  | [] => idle st
  | e :: events' =>
      let first := handle JSON_parse e st in
      let rest := session JSON_parse events' (result first) in
      {| sent := sent first ++ sent rest; result := result rest |}
  end.

(* ================================================================= *)
(** * Vocabulary of the properties *)

(** Equality of categories, as the string comparison of their values. *)
Definition Category_eqb (a b : Category) : bool :=
  jsstring_eqb (Category_value a) (Category_value b).

Definition mem (c : Category) (cs : list Category) : bool :=
  existsb (fun c' => Category_eqb c' c) cs.

(** The transactions of a category, in the order of the list. *)
Definition ofCategory (c : Category) (l : list Transaction)
  : list Transaction :=
  filter (fun t => Category_eqb (Transaction.category t) c) l.

(** The categories that occur in a list, in the order in which they
    first occur. *)
Definition occurring (l : list Transaction) : list Category :=
  fold_left
    (fun cs t =>
       if mem (Transaction.category t) cs then cs
       else cs ++ [Transaction.category t])
    l [].

Definition amounts (l : list Transaction) : list number :=
  map Transaction.amount l.

Definition categories (s : list ExpenseSummary) : list Category :=
  map ExpenseSummary.category s.

Definition totals (s : list ExpenseSummary) : list number :=
  map ExpenseSummary.total s.

Definition counts (s : list ExpenseSummary) : list nat :=
  map ExpenseSummary.count s.

(** The summary of one category: what [categorySummary] holds for it. *)
Definition summaryOf (l : list Transaction) (c : Category) : ExpenseSummary :=
  {| ExpenseSummary.category := c;
     ExpenseSummary.total := Number.sum (amounts (ofCategory c l));
     ExpenseSummary.count := List.length (ofCategory c l);
     ExpenseSummary.color := or_else (CATEGORY_COLORS c) (js "#94A3B8") |}.

(** The object whose properties are the values of [cs], in this order,
    each holding [f] of its category. *)
Definition entries {V} (f : Category -> V) (cs : list Category) : Obj.t V :=
  map (fun c => (Category_value c, f c)) cs.

(** [a] is immediately followed by [b] in [l]. *)
Definition adjacent {A} (a b : A) (l : list A) : Prop :=
  exists l1 l2, l = l1 ++ a :: b :: l2.

(** Sums of integers. *)
Definition zsum (zs : list Z) : Z := fold_right Z.add 0%Z zs.

(** The amounts of a list read as integers, and their magnitudes. *)
Definition integers (l : list Transaction) : list Z :=
  map (fun t => Number.toZ (Transaction.amount t)) l.

Definition magnitudes (l : list Transaction) : list Z :=
  map (fun t => Z.abs (Number.toZ (Transaction.amount t))) l.

(** ** Sample data *)

Definition transaction (id : string) (amount : number) (category : Category)
  : Transaction :=
  {| Transaction.id := js id;
     Transaction.date := js "2024-01-15";
     Transaction.merchant := js "merchant";
     Transaction.amount := amount;
     Transaction.category := category;
     Transaction.originalDescription := js "description" |}.

(** The scenario of the specification: 500 and 300 on food, 1200 on
    shopping. *)
Definition scenario : list Transaction :=
  [transaction "t1" (Number.ofZ 500) FOOD;
   transaction "t2" (Number.ofZ 1200) SHOPPING;
   transaction "t3" (Number.ofZ 300) FOOD].

(** The numbers written 0.3, 0.2, 0.1, 0.4, 0.6 and 0.6000000000000001. *)
Definition n0_3 : number := S754_finite false 5404319552844595 (-54).
Definition n0_2 : number := S754_finite false 7205759403792794 (-55).
Definition n0_1 : number := S754_finite false 7205759403792794 (-56).
Definition n0_4 : number := S754_finite false 7205759403792794 (-54).
Definition n0_6 : number := S754_finite false 5404319552844595 (-53).
Definition n0_6000000000000001 : number :=
  S754_finite false 5404319552844596 (-53).

(** 0.30 and 0.10 on food, 0.20 on shopping. *)
Definition cents : list Transaction :=
  [transaction "t1" n0_3 FOOD;
   transaction "t2" n0_2 SHOPPING;
   transaction "t3" n0_1 FOOD].


(** A service that answers every request with the same reply. *)
Definition answering (reply : Reply) : Request -> Reply := fun _ => reply.

(** A [JSON.parse] known on one text only. *)
Definition reading {P} (text : jsstring) (payload : P)
  : jsstring -> option P :=
  fun s => if jsstring_eqb s text then Some payload else None.

(** A payload off the schema: its one transaction has no [amount], and a
    [category] outside the enumeration. *)
Definition strayPayload : json :=
  JObject
    [(js "transactions",
      JArray
        [JObject
           [(js "id", JString (js "t1"));
            (js "date", JString (js "2024-01-15"));
            (js "merchant", JString (js "Corner Shop"));
            (js "category", JString (js "Groceries"))]]);
     (js "totalAmount", JNumber (Number.ofZ 120))].

Definition batch1 : AnalysisResult :=
  {| AnalysisResult.transactions :=
       [transaction "a1" (Number.ofZ 500) FOOD;
        transaction "a2" (Number.ofZ 1200) SHOPPING];
     AnalysisResult.totalAmount := Number.ofZ 1700;
     AnalysisResult.currency := js "INR" |}.

Definition batch2 : AnalysisResult :=
  {| AnalysisResult.transactions := [transaction "b1" (Number.ofZ 300) FOOD];
     AnalysisResult.totalAmount := Number.ofZ 300;
     AnalysisResult.currency := js "INR" |}.

(** ** Further vocabulary and sample data *)

(** [a] comes somewhere before [b] in [l]. *)
Definition precedes {A} (a b : A) (l : list A) : Prop :=
  exists l1 l2 l3, l = l1 ++ a :: l2 ++ b :: l3.

(** An event other than a confirmed Clear All. *)
Definition keeps (e : Event) : bool :=
  match e with
  | ClearClicked true => false
  | _ => true
  end.

(** A data URL as [FileReader.readAsDataURL] produces it. *)
Definition receipt : File :=
  {| dataURL := js "data:image/png;base64,iVBORw0KGgo=";
     type := js "image/png" |}.

(** Two purchases of the same amount. *)
Definition tied : list Transaction :=
  [transaction "t1" (Number.ofZ 250) TRANSPORT;
   transaction "t2" (Number.ofZ 250) FOOD;
   transaction "t3" (Number.ofZ 900) HOUSING].

(** The result [batch1] with another total and another currency. *)
Definition batch1' : AnalysisResult :=
  {| AnalysisResult.transactions := AnalysisResult.transactions batch1;
     AnalysisResult.totalAmount := Number.ofZ 0;
     AnalysisResult.currency := js "USD" |}.

(* ================================================================= *)
(** * Facts about binary64 arithmetic *)

Module Binary64.
Import Number.
#[local] Open Scope Z_scope.

(** ** Digits and shifts *)

(** The number of binary digits of a mantissa. *)
Lemma digits2_pos_size p : digits2_pos p = Pos.size p.
Proof. induction p; simpl; congruence. Qed.

Lemma digits2_pos_log2 p : Zpos (digits2_pos p) = Z.log2 (Zpos p) + 1.
Proof.
  destruct p as [p|p|]; simpl; rewrite ?digits2_pos_size; lia.
Qed.

Lemma digits2_pos_bounds p :
  2 ^ (Zpos (digits2_pos p) - 1) <= Zpos p < 2 ^ Zpos (digits2_pos p).
Proof.
  rewrite digits2_pos_log2.
  replace (Z.log2 (Zpos p) + 1 - 1) with (Z.log2 (Zpos p)) by lia.
  apply (Z.log2_spec (Zpos p)). lia.
Qed.

(** Shifting a mantissa left multiplies it by a power of two. *)
Lemma iter_xO_pow m d : Zpos (Pos.iter xO m d) = Zpos m * 2 ^ Zpos d.
Proof.
  induction d as [|d IH] using Pos.peano_ind.
  - simpl. lia.
  - rewrite Pos.iter_succ, Pos2Z.inj_xO, IH, Pos2Z.inj_succ, Z.pow_succ_r; lia.
Qed.

Lemma digits2_pos_iter_xO m d :
  Zpos (digits2_pos (Pos.iter xO m d)) = Zpos (digits2_pos m) + Zpos d.
Proof.
  rewrite !digits2_pos_log2, iter_xO_pow, Z.log2_mul_pow2; lia.
Qed.

(** The iteration of [SpecFloat] is the iteration of [Pos]. *)
Lemma iter_pos_iter {A} (f : A -> A) n x : iter_pos f n x = Pos.iter f x n.
Proof.
  revert x. induction n as [n IH|n IH|]; intros x; simpl.
  - rewrite !IH, !Pos.iter_swap. reflexivity.
  - now rewrite !IH.
  - reflexivity.
Qed.

(** Aligning a mantissa to a lower exponent keeps its value. *)
Lemma shl_align_spec m e e' :
  snd (shl_align m e e') = Z.min e e' /\
  Zpos (fst (shl_align m e e')) = Zpos m * 2 ^ (e - Z.min e e').
Proof.
  unfold shl_align. destruct (e' - e) as [|d|d] eqn:E; cbn [fst snd].
  - replace (Z.min e e') with e by lia. rewrite Z.sub_diag, Z.pow_0_r. lia.
  - replace (Z.min e e') with e by lia. rewrite Z.sub_diag, Z.pow_0_r. lia.
  - replace (Z.min e e') with e' by lia. rewrite iter_xO_pow.
    replace (e - e') with (Zpos d) by lia. lia.
Qed.

(** The exponent of the last place, for binary64. *)
Lemma fexp_eq x : fexp prec emax x = Z.max (x - 53) (-1074).
Proof. reflexivity. Qed.

(** ** Shifts to the right

    Shifting out zeros is exact: neither the round bit nor the sticky
    bit is raised. *)
Lemma shr_exact m n :
  Pos.iter shr_1 (Build_shr_record (Zpos (Pos.iter xO m n)) false false) n
  = Build_shr_record (Zpos m) false false.
Proof.
  induction n as [|n IH] using Pos.peano_ind.
  - reflexivity.
  - rewrite Pos.iter_succ_r, Pos.iter_succ. exact IH.
Qed.

(** In general the mantissa is halved at each step. *)
Lemma shr_1_m mrs : 0 <= shr_m mrs -> shr_m (shr_1 mrs) = Z.div2 (shr_m mrs).
Proof.
  destruct mrs as [m r s]. simpl. destruct m as [|[p|p|]|p]; simpl; trivial; lia.
Qed.

Lemma shr_iter_m mrs n :
  0 <= shr_m mrs ->
  shr_m (Pos.iter shr_1 mrs n) = shr_m mrs / 2 ^ Zpos n.
Proof.
  intros Hm. rewrite <- Z.shiftr_div_pow2 by lia.
  change (Z.shiftr (shr_m mrs) (Zpos n)) with (Pos.iter Z.div2 (shr_m mrs) n).
  induction n as [|n IH] using Pos.peano_ind.
  - apply shr_1_m, Hm.
  - rewrite !Pos.iter_succ, shr_1_m, IH; trivial.
    rewrite IH. change (Pos.iter Z.div2 (shr_m mrs) n) with (Z.shiftr (shr_m mrs) (Zpos n)).
    apply Z.shiftr_nonneg, Hm.
Qed.

(** ** Rounding

    A mantissa already at its canonical exponent is left as it is. *)
Lemma binary_round_aux_canonical s m e :
  canonical_mantissa prec emax m e = true ->
  e <= emax - prec ->
  binary_round_aux prec emax s (Zpos m) e loc_Exact = S754_finite s m e.
Proof.
  unfold canonical_mantissa. intros Hc He. apply Z.eqb_eq in Hc.
  unfold binary_round_aux, shr_fexp. cbn [Zdigits2].
  rewrite Hc, Z.sub_diag. cbn [shr shr_record_of_loc shr_m loc_of_shr_record round_nearest_even Zdigits2].
  rewrite Hc, Z.sub_diag. cbn [shr shr_record_of_loc shr_m].
  apply Z.leb_le in He. now rewrite He.
Qed.

(** Trailing zeros of a mantissa do not change what rounding shifts
    out. *)
Lemma shr_fexp_scale m e k :
  e <= fexp prec emax (Zpos (digits2_pos m) + e) ->
  shr_fexp prec emax (Zpos (Pos.iter xO m k)) (e - Zpos k) loc_Exact
  = shr_fexp prec emax (Zpos m) e loc_Exact.
Proof.
  intros Ht. unfold shr_fexp. cbn [Zdigits2 shr_record_of_loc].
  rewrite digits2_pos_iter_xO.
  replace (Zpos (digits2_pos m) + Zpos k + (e - Zpos k))
    with (Zpos (digits2_pos m) + e) by lia.
  set (t := fexp prec emax (Zpos (digits2_pos m) + e)) in *.
  destruct (t - e) as [|n|n] eqn:E; try lia.
  - replace (t - (e - Zpos k)) with (Zpos k) by lia.
    unfold shr. rewrite iter_pos_iter, shr_exact. f_equal. lia.
  - replace (t - (e - Zpos k)) with (Zpos (n + k)) by lia.
    unfold shr. rewrite !iter_pos_iter, Pos.iter_add, shr_exact. f_equal. lia.
Qed.

Lemma binary_round_aux_scale s m e k :
  e <= fexp prec emax (Zpos (digits2_pos m) + e) ->
  binary_round_aux prec emax s (Zpos (Pos.iter xO m k)) (e - Zpos k) loc_Exact
  = binary_round_aux prec emax s (Zpos m) e loc_Exact.
Proof.
  intros Ht. unfold binary_round_aux. now rewrite shr_fexp_scale.
Qed.

(** Rounding sees the value only: a mantissa shifted left with its
    exponent lowered rounds the same. *)
Lemma binary_round_scale s m e k :
  binary_round prec emax s (Pos.iter xO m k) (e - Zpos k)
  = binary_round prec emax s m e.
Proof.
  unfold binary_round.
  rewrite digits2_pos_iter_xO.
  replace (Zpos (digits2_pos m) + Zpos k + (e - Zpos k))
    with (Zpos (digits2_pos m) + e) by lia.
  set (t := fexp prec emax (Zpos (digits2_pos m) + e)).
  unfold shl_align.
  destruct (t - e) as [|n|n] eqn:E.
  - replace (t - (e - Zpos k)) with (Zpos k) by lia.
    apply binary_round_aux_scale. fold t. lia.
  - replace (t - (e - Zpos k)) with (Zpos (n + k)) by lia.
    apply binary_round_aux_scale. fold t. lia.
  - destruct (t - (e - Zpos k)) as [|j|j] eqn:E'.
    + (* k = e - t *)
      replace k with n by lia. replace (e - Zpos n) with t by lia. reflexivity.
    + (* k > e - t *)
      replace k with (j + n)%positive by lia.
      rewrite Pos.iter_add.
      replace (e - Zpos (j + n)) with (t - Zpos j) by lia.
      apply binary_round_aux_scale.
      rewrite digits2_pos_iter_xO.
      replace (Zpos (digits2_pos m) + Zpos n + t)
        with (Zpos (digits2_pos m) + e) by lia.
      fold t. lia.
    + (* k < e - t *)
      replace n with (j + k)%positive by lia.
      now rewrite Pos.iter_add.
Qed.


(** ** Integers

    A safe integer has at most 53 digits, and fits a mantissa. *)
Lemma digits2_pos_small p :
  Zpos p <= 2 ^ 53 - 1 -> 1 <= Zpos (digits2_pos p) <= 53.
Proof.
  intros Hp. rewrite digits2_pos_log2.
  assert (0 <= Z.log2 (Zpos p)) by apply Z.log2_nonneg.
  assert (Z.log2 (Zpos p) < 53) by (apply Z.log2_lt_pow2; lia).
  lia.
Qed.

Lemma binary_round_small s p :
  Zpos p <= 2 ^ 53 - 1 ->
  exists M e, binary_round prec emax s p 0 = S754_finite s M e
              /\ -52 <= e <= 0 /\ Zpos M = Zpos p * 2 ^ (- e).
Proof.
  intros Hp. pose proof (digits2_pos_small p Hp) as Hd.
  unfold binary_round. rewrite Z.add_0_r, fexp_eq.
  rewrite Z.max_l by lia. unfold shl_align.
  destruct (Zpos (digits2_pos p) - 53 - 0) as [|n|n] eqn:E; try lia.
  - exists p, 0. split; [|split; [lia|simpl; lia]].
    apply binary_round_aux_canonical; [|unfold emax, prec; lia].
    unfold canonical_mantissa. rewrite Z.add_0_r, fexp_eq. apply Z.eqb_eq. lia.
  - exists (Pos.iter xO p n), (Zpos (digits2_pos p) - 53).
    split; [|split; [lia|]].
    + apply binary_round_aux_canonical; [|unfold emax, prec; lia].
      unfold canonical_mantissa. rewrite digits2_pos_iter_xO, fexp_eq.
      apply Z.eqb_eq. lia.
    + rewrite iter_xO_pow. f_equal. f_equal. lia.
Qed.

(** The number of [z * 2^k] at exponent [-k] is the number of [z]. *)
Lemma binary_normalize_scale z k :
  0 <= k ->
  binary_normalize prec emax (z * 2 ^ k) (- k) false
  = binary_normalize prec emax z 0 false.
Proof.
  intros Hk. destruct k as [|k|k]; try lia.
  - now rewrite Z.pow_0_r, Z.mul_1_r.
  - destruct z as [|c|c].
    + reflexivity.
    + rewrite <- iter_xO_pow. cbn [binary_normalize].
      change (- Zpos k) with (0 - Zpos k). apply binary_round_scale.
    + change (Zneg c) with (- Zpos c).
      rewrite Z.mul_opp_l, <- iter_xO_pow. cbn [binary_normalize Z.opp].
      change (Zneg k) with (0 - Zpos k). apply binary_round_scale.
Qed.

(** The sum of two numbers that hold integers is the number of the sum
    of the integers. *)
Lemma add_finite_aligned sa Ma ea sb Mb eb a b :
  ea <= 0 -> eb <= 0 ->
  cond_Zopp sa (Zpos Ma) = a * 2 ^ (- ea) ->
  cond_Zopp sb (Zpos Mb) = b * 2 ^ (- eb) ->
  add (S754_finite sa Ma ea) (S754_finite sb Mb eb) = ofZ (a + b).
Proof.
  intros Hea Heb Ha Hb. unfold add, SFadd, ofZ.
  remember (Z.min ea eb) as ez eqn:Hez.
  destruct (shl_align_spec Ma ea ez) as [_ HA].
  destruct (shl_align_spec Mb eb ez) as [_ HB].
  replace (Z.min ea ez) with ez in HA by lia.
  replace (Z.min eb ez) with ez in HB by lia.
  rewrite <- (binary_normalize_scale (a + b) (- ez)) by lia.
  rewrite Z.opp_involutive. f_equal.
  assert (Hcond : forall s M k, cond_Zopp s (Zpos M * 2 ^ k) = cond_Zopp s (Zpos M) * 2 ^ k)
    by (intros [] M k; cbn [cond_Zopp]; [symmetry; apply Z.mul_opp_l|reflexivity]).
  rewrite HA, HB, !Hcond, Ha, Hb, Z.mul_add_distr_r.
  rewrite <- !Z.mul_assoc, <- !Z.pow_add_r by lia.
  f_equal; f_equal; f_equal; lia.
Qed.

(** The shape of the number of a safe integer other than 0. *)
Lemma ofZ_finite z :
  z <> 0 -> Z.abs z <= 2 ^ 53 - 1 ->
  exists s M e, ofZ z = S754_finite s M e /\ e <= 0
                /\ cond_Zopp s (Zpos M) = z * 2 ^ (- e).
Proof.
  intros Hz Hb. destruct z as [|p|p]; [easy| |].
  - destruct (binary_round_small false p Hb) as (M & e & H1 & H2 & H3).
    exists false, M, e. repeat split; [exact H1|lia|exact H3].
  - destruct (binary_round_small true p Hb) as (M & e & H1 & H2 & H3).
    exists true, M, e. repeat split; [exact H1|lia|].
    change (Zneg p) with (- Zpos p). rewrite Z.mul_opp_l, <- H3. reflexivity.
Qed.

(** Addition is exact on safe integers: the sum of their numbers is the
    number of their sum (itself exact when the sum is safe). *)
Lemma add_ofZ a b :
  Z.abs a <= 2 ^ 53 - 1 -> Z.abs b <= 2 ^ 53 - 1 ->
  add (ofZ a) (ofZ b) = ofZ (a + b).
Proof.
  intros Ha Hb.
  destruct (Z.eq_dec a 0) as [->|Ha0].
  - destruct (Z.eq_dec b 0) as [->|Hb0]; [reflexivity|].
    destruct (ofZ_finite b Hb0 Hb) as (s & M & e & H & _).
    rewrite Z.add_0_l, H. reflexivity.
  - destruct (ofZ_finite a Ha0 Ha) as (sa & Ma & ea & Ea & Hea & HMa).
    destruct (Z.eq_dec b 0) as [->|Hb0].
    + rewrite Z.add_0_r, Ea. reflexivity.
    + destruct (ofZ_finite b Hb0 Hb) as (sb & Mb & eb & Eb & Heb & HMb).
      rewrite Ea, Eb. now apply add_finite_aligned.
Qed.


(** ** Signs

    Rounding a positive mantissa at an exponent of the format gives a
    positive number: nothing underflows to zero. *)
Lemma shr_record_of_loc_m m l : shr_m (shr_record_of_loc m l) = m.
Proof. destruct l as [|[]]; reflexivity. Qed.

Lemma shr_fexp_pos m e l :
  0 < m -> -1074 <= e ->
  0 < shr_m (fst (shr_fexp prec emax m e l))
  /\ -1074 <= snd (shr_fexp prec emax m e l).
Proof.
  intros Hm He. destruct m as [|p|p]; try lia.
  unfold shr_fexp. cbn [Zdigits2]. rewrite fexp_eq.
  pose proof (digits2_pos_bounds p) as [Hd _].
  set (d := Zpos (digits2_pos p)) in *.
  destruct (Z.max (d + e - 53) (-1074) - e) as [|n|n] eqn:E; cbn [shr fst snd].
  - rewrite shr_record_of_loc_m. lia.
  - rewrite iter_pos_iter, shr_iter_m by (rewrite shr_record_of_loc_m; lia).
    rewrite shr_record_of_loc_m. split; [|lia].
    apply Z.div_str_pos. split; [apply Z.pow_pos_nonneg; lia|].
    apply Z.le_trans with (2 ^ (d - 1)); [|exact Hd].
    apply Z.pow_le_mono_r; lia.
  - rewrite shr_record_of_loc_m. lia.
Qed.

Lemma round_nearest_even_pos m l : 0 < m -> 0 < round_nearest_even m l.
Proof.
  intros Hm. destruct l as [|[]]; cbn [round_nearest_even]; try lia.
  destruct (Z.even m); lia.
Qed.

Lemma binary_round_aux_pos m e :
  0 < m -> -1074 <= e ->
  lt zero (binary_round_aux prec emax false m e loc_Exact) = true.
Proof.
  intros Hm He. unfold binary_round_aux.
  pose proof (shr_fexp_pos m e loc_Exact Hm He) as [H1 H2].
  destruct (shr_fexp prec emax m e loc_Exact) as [mrs' e']. cbn [fst snd] in *.
  pose proof (round_nearest_even_pos (shr_m mrs') (loc_of_shr_record mrs') H1) as H3.
  pose proof (shr_fexp_pos _ e' loc_Exact H3 H2) as [H4 _].
  destruct (shr_fexp prec emax _ e' loc_Exact) as [mrs'' e'']. cbn [fst] in *.
  destruct (shr_m mrs'') as [|q|q]; try lia.
  destruct (e'' <=? emax - prec); reflexivity.
Qed.

Lemma binary_normalize_pos M e :
  0 < M -> -1074 <= e ->
  lt zero (binary_normalize prec emax M e false) = true.
Proof.
  intros HM He. destruct M as [|m|m]; try lia.
  cbn [binary_normalize]. unfold binary_round.
  pose proof (shl_align_spec m e (fexp prec emax (Zpos (digits2_pos m) + e))) as [H1 _].
  destruct (shl_align _ _ _) as [mz ez]. cbn [snd] in H1.
  apply binary_round_aux_pos; [lia|].
  rewrite H1, fexp_eq. lia.
Qed.

(** Rounding with the negative sign never gives a positive number. *)
Lemma binary_round_aux_neg m e l :
  lt zero (binary_round_aux prec emax true m e l) = false.
Proof.
  unfold binary_round_aux.
  destruct (shr_fexp prec emax m e l) as [mrs' e'].
  destruct (shr_fexp prec emax _ e' loc_Exact) as [mrs'' e''].
  destruct (shr_m mrs''); [reflexivity| |reflexivity].
  destruct (e'' <=? emax - prec); reflexivity.
Qed.

Lemma binary_normalize_pos_inv M e :
  lt zero (binary_normalize prec emax M e false) = true -> 0 < M.
Proof.
  destruct M as [|m|m]; cbn [binary_normalize]; [discriminate|lia|].
  unfold binary_round. destruct (shl_align _ _ _) as [mz ez].
  now rewrite binary_round_aux_neg.
Qed.

(** [x - y] and [y - x] are not both positive. *)
Lemma sub_pos_asym x y : lt zero (sub x y) = true -> lt zero (sub y x) = false.
Proof.
  destruct x as [sx|sx| |sx mx ex], y as [sy|sy| |sy my ey];
    try (destruct sx, sy; cbn; congruence);
    try (destruct sx; cbn; congruence);
    try (destruct sy; cbn; congruence);
    try (cbn; congruence).
  unfold sub, SFsub. intros H. apply binary_normalize_pos_inv in H.
  destruct (lt zero _) eqn:H'; [|reflexivity].
  apply binary_normalize_pos_inv in H'. rewrite (Z.min_comm ey ex) in H'. lia.
Qed.

(** ** Order

    What [valid] says of a finite number: at most 53 digits, and exactly
    53 above the least exponent. *)
Lemma valid_finite s m e :
  valid (S754_finite s m e) = true ->
  -1074 <= e /\ Zpos (digits2_pos m) <= 53
  /\ (-1074 < e -> Zpos (digits2_pos m) = 53).
Proof.
  unfold valid, valid_binary, bounded, canonical_mantissa.
  rewrite fexp_eq. intros H. apply andb_prop in H as [H _].
  apply Z.eqb_eq in H. lia.
Qed.

(** Among valid mantissas, the one with the larger exponent is larger. *)
Lemma mantissa_lt_of_exponent_lt mx ex my ey :
  valid (S754_finite false mx ex) = true ->
  valid (S754_finite false my ey) = true ->
  ex < ey -> Zpos mx < Zpos my * 2 ^ (ey - ex).
Proof.
  intros Hx Hy Hlt.
  apply valid_finite in Hx as (Hex & Hdx & _).
  apply valid_finite in Hy as (_ & _ & Hdy).
  pose proof (digits2_pos_bounds mx) as [_ Hmx].
  pose proof (digits2_pos_bounds my) as [Hmy _].
  rewrite Hdy in Hmy by lia.
  assert (Zpos mx < 2 ^ 53).
  { eapply Z.lt_le_trans; [exact Hmx|]. apply Z.pow_le_mono_r; lia. }
  assert (2 ^ 1 <= 2 ^ (ey - ex)) by (apply Z.pow_le_mono_r; lia).
  change (2 ^ (53 - 1)) with 4503599627370496 in Hmy.
  change (2 ^ 53) with 9007199254740992 in *.
  change (2 ^ 1) with 2 in *. nia.
Qed.

(** [y > x] on valid finite numbers is the order of their aligned signed
    mantissas. *)
Lemma compare_Gt_aligned sx mx ex sy my ey :
  valid (S754_finite sx mx ex) = true ->
  valid (S754_finite sy my ey) = true ->
  SFcompare (S754_finite sy my ey) (S754_finite sx mx ex) = Some Gt ->
  cond_Zopp sx (Zpos (fst (shl_align mx ex (Z.min ey ex))))
  < cond_Zopp sy (Zpos (fst (shl_align my ey (Z.min ey ex)))).
Proof.
  intros Hx Hy Hc.
  destruct (shl_align_spec mx ex (Z.min ey ex)) as [_ ->].
  destruct (shl_align_spec my ey (Z.min ey ex)) as [_ ->].
  replace (Z.min ex (Z.min ey ex)) with (Z.min ey ex) by lia.
  replace (Z.min ey (Z.min ey ex)) with (Z.min ey ex) by lia.
  assert (HX : 0 < Zpos mx * 2 ^ (ex - Z.min ey ex))
    by (apply Z.mul_pos_pos; [lia|apply Z.pow_pos_nonneg; lia]).
  assert (HY : 0 < Zpos my * 2 ^ (ey - Z.min ey ex))
    by (apply Z.mul_pos_pos; [lia|apply Z.pow_pos_nonneg; lia]).
  cbn [SFcompare] in Hc.
  destruct sy, sx; cbn [cond_Zopp]; try discriminate; try lia.
  - (* both negative *)
    destruct (Z.compare_spec ey ex) as [E|E|E]; try discriminate.
    + subst ey. rewrite Z.min_id, Z.sub_diag, Z.pow_0_r, !Z.mul_1_r.
      change (PosDef.Pos.compare_cont Eq my mx) with (Pos.compare my mx) in Hc.
      destruct (Pos.compare_spec my mx); cbn in Hc; try discriminate. lia.
    + rewrite Z.min_l by lia. rewrite Z.sub_diag, Z.pow_0_r, Z.mul_1_r.
      pose proof (mantissa_lt_of_exponent_lt my ey mx ex Hy Hx E). lia.
  - (* both positive *)
    destruct (Z.compare_spec ey ex) as [E|E|E]; try discriminate.
    + subst ey. rewrite Z.min_id, Z.sub_diag, Z.pow_0_r, !Z.mul_1_r.
      change (PosDef.Pos.compare_cont Eq my mx) with (Pos.compare my mx) in Hc.
      destruct (Pos.compare_spec my mx); cbn in Hc; try discriminate. lia.
    + rewrite Z.min_r by lia. rewrite Z.sub_diag, Z.pow_0_r, Z.mul_1_r.
      pose proof (mantissa_lt_of_exponent_lt mx ex my ey Hx Hy E). lia.
Qed.

(** On numbers other than NaN, a difference [y - x] that is not
    positive means [x >= y]. *)
Lemma sub_not_pos_ge x y :
  valid x = true -> valid y = true -> isNaN x = false -> isNaN y = false ->
  lt zero (sub y x) = false -> ge x y = true.
Proof.
  intros Vx Vy Nx Ny.
  destruct x as [sx|sx| |sx mx ex], y as [sy|sy| |sy my ey];
    try discriminate;
    try (destruct sx, sy; cbn; congruence);
    try (destruct sx; cbn; congruence);
    try (destruct sy; cbn; congruence).
  intros H. unfold ge, SFleb.
  destruct (SFcompare (S754_finite sy my ey) (S754_finite sx mx ex))
    as [[]|] eqn:Hc; try reflexivity.
  - exfalso. pose proof (compare_Gt_aligned _ _ _ _ _ _ Vx Vy Hc) as Hlt.
    unfold sub, SFsub in H.
    rewrite binary_normalize_pos in H; [discriminate|lia|].
    apply valid_finite in Vx as (? & _). apply valid_finite in Vy as (? & _). lia.
  - cbn in Hc. discriminate.
Qed.

(** ** Representable results *)

Lemma Zdigits2_log2 m : 0 < m -> Zdigits2 m = Z.log2 m + 1.
Proof. destruct m; try lia. intros _. apply digits2_pos_log2. Qed.

Lemma round_nearest_even_bounds m l :
  m <= round_nearest_even m l <= m + 1.
Proof.
  destruct l as [|[]]; cbn [round_nearest_even]; try lia.
  destruct (Z.even m); lia.
Qed.

(** A right shift that keeps at least one digit yields the canonical
    exponent of what is left. *)
Lemma shr_fexp_canonical m e l :
  0 < m ->
  e <= fexp prec emax (Zdigits2 m + e) ->
  fexp prec emax (Zdigits2 m + e) - e < Zdigits2 m ->
  0 < shr_m (fst (shr_fexp prec emax m e l))
  /\ fexp prec emax (Zdigits2 (shr_m (fst (shr_fexp prec emax m e l)))
                     + snd (shr_fexp prec emax m e l))
     = snd (shr_fexp prec emax m e l).
Proof.
  intros Hm Hle Hlt. unfold shr_fexp.
  set (t := fexp prec emax (Zdigits2 m + e)) in *.
  destruct (t - e) as [|n|n] eqn:E; try lia; cbn [shr fst snd].
  - rewrite shr_record_of_loc_m. split; [lia|]. fold t. lia.
  - rewrite iter_pos_iter, shr_iter_m by (rewrite shr_record_of_loc_m; lia).
    rewrite shr_record_of_loc_m.
    rewrite Zdigits2_log2 in Hlt by lia.
    assert (Hq : 0 < m / 2 ^ Zpos n).
    { apply Z.div_str_pos. split; [apply Z.pow_pos_nonneg; lia|].
      apply Z.log2_le_pow2; lia. }
    split; [exact Hq|].
    rewrite Zdigits2_log2 by exact Hq.
    rewrite <- Z.shiftr_div_pow2, Z.log2_shiftr by lia.
    rewrite Z.max_r by lia.
    replace (Z.log2 m - Zpos n + 1 + (e + Zpos n)) with (Zdigits2 m + e)
      by (rewrite Zdigits2_log2; lia).
    fold t. lia.
Qed.

Lemma Zdigits2_le a b : 0 < a -> a <= b -> Zdigits2 a <= Zdigits2 b.
Proof.
  intros Ha Hab. rewrite !Zdigits2_log2 by lia.
  pose proof (Z.log2_le_mono a b Hab). lia.
Qed.

(** Rounding yields a representation of the format, and never NaN. *)
Lemma binary_round_aux_valid s m e :
  0 < m -> e <= fexp prec emax (Zdigits2 m + e) ->
  valid (binary_round_aux prec emax s m e loc_Exact) = true
  /\ isNaN (binary_round_aux prec emax s m e loc_Exact) = false.
Proof.
  intros Hm Hle. unfold binary_round_aux.
  destruct (Z_lt_le_dec (fexp prec emax (Zdigits2 m + e) - e) (Zdigits2 m))
    as [Hlt|Hge].
  - (* digits remain *)
    pose proof (shr_fexp_canonical m e loc_Exact Hm Hle Hlt) as [H1 H2].
    destruct (shr_fexp prec emax m e loc_Exact) as [mrs' e']. cbn [fst snd] in *.
    pose proof (round_nearest_even_bounds (shr_m mrs') (loc_of_shr_record mrs'))
      as Hr.
    set (m2 := round_nearest_even (shr_m mrs') (loc_of_shr_record mrs')) in *.
    assert (Hd : Zdigits2 (shr_m mrs') <= Zdigits2 m2)
      by (apply Zdigits2_le; lia).
    assert (Hd1 : 1 <= Zdigits2 (shr_m mrs')).
    { rewrite Zdigits2_log2 by lia.
      pose proof (Z.log2_nonneg (shr_m mrs')). lia. }
    rewrite fexp_eq in H2.
    assert (H3 : 0 < m2) by lia.
    assert (H4 : e' <= fexp prec emax (Zdigits2 m2 + e')) by (rewrite fexp_eq; lia).
    assert (H5 : fexp prec emax (Zdigits2 m2 + e') - e' < Zdigits2 m2)
      by (rewrite fexp_eq; lia).
    pose proof (shr_fexp_canonical m2 e' loc_Exact H3 H4 H5) as [H6 H7].
    destruct (shr_fexp prec emax m2 e' loc_Exact) as [mrs'' e'']. cbn [fst snd] in *.
    destruct (shr_m mrs'') as [|q|q]; try lia.
    destruct (e'' <=? emax - prec) eqn:Hb; [|split; reflexivity].
    split; [|reflexivity].
    unfold valid, valid_binary, bounded, canonical_mantissa.
    cbn [Zdigits2] in H7. rewrite H7, Z.eqb_refl, Hb. reflexivity.
  - (* every digit is shifted out *)
    assert (Ht : fexp prec emax (Zdigits2 m + e) = -1074)
      by (rewrite fexp_eq in *; lia).
    assert (Hd1 : 1 <= Zdigits2 m).
    { rewrite Zdigits2_log2 by lia. pose proof (Z.log2_nonneg m). lia. }
    rewrite Ht in Hge.
    destruct (-1074 - e) as [|n|n] eqn:E; try lia.
    assert (Hfirst : exists mrs', shr_fexp prec emax m e loc_Exact = (mrs', -1074)
                                  /\ shr_m mrs' = 0).
    { exists (iter_pos shr_1 n (shr_record_of_loc m loc_Exact)). split.
      - unfold shr_fexp. rewrite Ht, E. cbn [shr]. f_equal. lia.
      - rewrite iter_pos_iter, shr_iter_m by (cbn; lia).
        cbn [shr_record_of_loc shr_m].
        apply Z.div_small. split; [lia|].
        apply Z.log2_lt_pow2; [lia|]. rewrite Zdigits2_log2 in Hge by lia. lia. }
    destruct Hfirst as (mrs' & -> & H0). rewrite H0.
    destruct (loc_of_shr_record mrs') as [|[]]; split; reflexivity.
Qed.

Lemma binary_round_valid s m e :
  valid (binary_round prec emax s m e) = true
  /\ isNaN (binary_round prec emax s m e) = false.
Proof.
  unfold binary_round.
  pose proof (shl_align_spec m e (fexp prec emax (Zpos (digits2_pos m) + e)))
    as [H1 H2].
  destruct (shl_align _ _ _) as [mz ez]. cbn [fst snd] in *.
  rewrite <- H1 in H2.
  apply binary_round_aux_valid; [lia|].
  cbn [Zdigits2]. rewrite !digits2_pos_log2, H2.
  rewrite Z.log2_mul_pow2 by lia.
  rewrite digits2_pos_log2 in H1.
  replace (e - ez + Z.log2 (Zpos m) + 1 + ez) with (Z.log2 (Zpos m) + 1 + e) by lia.
  lia.
Qed.

Lemma binary_normalize_valid M e :
  valid (binary_normalize prec emax M e false) = true
  /\ isNaN (binary_normalize prec emax M e false) = false.
Proof.
  destruct M; cbn [binary_normalize];
    [split; reflexivity| |]; apply binary_round_valid.
Qed.

Lemma ofZ_valid z : valid (ofZ z) = true.
Proof. apply binary_normalize_valid. Qed.

(** The sum of two representable numbers is representable. *)
Lemma add_valid x y : valid x = true -> valid y = true -> valid (add x y) = true.
Proof.
  intros Vx Vy.
  destruct x as [sx|sx| |sx mx ex], y as [sy|sy| |sy my ey];
    try (destruct sx, sy; reflexivity); try reflexivity; try assumption.
  apply binary_normalize_valid.
Qed.

(** Adding a finite number never produces NaN. *)
Lemma add_finite_not_NaN x y :
  isNaN x = false -> isFinite y = true -> isNaN (add x y) = false.
Proof.
  intros Nx Fy.
  destruct x as [sx|sx| |sx mx ex], y as [sy|sy| |sy my ey];
    try discriminate; try (destruct sx, sy; reflexivity); try reflexivity.
  apply binary_normalize_valid.
Qed.

(** A number other than NaN equals itself. *)
Lemma eqb_refl x : isNaN x = false -> eqb x x = true.
Proof.
  destruct x as [s|s| |s m e]; try discriminate; intros _;
    try (destruct s; reflexivity).
  unfold eqb, SFeqb. cbn [SFcompare].
  rewrite Z.compare_refl.
  change (PosDef.Pos.compare_cont Eq m m) with (Pos.compare m m).
  rewrite Pos.compare_refl. destruct s; reflexivity.
Qed.

End Binary64.

(* ================================================================= *)
(** * Facts about strings, categories and objects *)

Lemma jsstring_eqb_eq s t : jsstring_eqb s t = true <-> s = t.
Proof.
  unfold jsstring_eqb. destruct (list_eq_dec N.eq_dec s t); split;
    congruence.
Qed.

Lemma jsstring_eqb_refl s : jsstring_eqb s s = true.
Proof. now apply jsstring_eqb_eq. Qed.

(** The members of the enum have distinct values. *)
Lemma Category_value_inj a b : Category_value a = Category_value b -> a = b.
Proof.
  destruct a, b; intros H; try reflexivity; vm_compute in H; discriminate.
Qed.

Lemma Category_eqb_eq a b : Category_eqb a b = true <-> a = b.
Proof.
  unfold Category_eqb. rewrite jsstring_eqb_eq. split.
  - apply Category_value_inj.
  - now intros ->.
Qed.

Lemma Category_eqb_refl a : Category_eqb a a = true.
Proof. now apply Category_eqb_eq. Qed.

Lemma Category_eqb_neq a b : a <> b -> Category_eqb a b = false.
Proof.
  intros H. destruct (Category_eqb a b) eqn:E; [|reflexivity].
  now apply Category_eqb_eq in E.
Qed.

Lemma Category_eqb_sym a b : Category_eqb a b = Category_eqb b a.
Proof.
  destruct (Category_eqb b a) eqn:E.
  - apply Category_eqb_eq in E. subst. apply Category_eqb_refl.
  - apply Category_eqb_neq. intros ->. now rewrite Category_eqb_refl in E.
Qed.

Lemma mem_In c cs : mem c cs = true <-> In c cs.
Proof.
  unfold mem. rewrite existsb_exists. split.
  - intros (c' & Hin & E). apply Category_eqb_eq in E. now subst.
  - intros Hin. exists c. split; [exact Hin|apply Category_eqb_refl].
Qed.

Lemma mem_not_In c cs : mem c cs = false <-> ~ In c cs.
Proof.
  rewrite <- mem_In. destruct (mem c cs); split; congruence.
Qed.

(** ** Trimming *)

Lemma trimStart_nil s : trimStart s = [] <-> forallb isWhiteSpace s = true.
Proof.
  induction s as [|c s IH]; simpl.
  - tauto.
  - destruct (isWhiteSpace c); simpl; [exact IH|]. split; discriminate.
Qed.

Lemma forallb_rev {A} (f : A -> bool) l : forallb f (rev l) = forallb f l.
Proof.
  induction l as [|a l IH]; simpl; [reflexivity|].
  rewrite forallb_app, IH. simpl. rewrite andb_true_r. apply andb_comm.
Qed.

Lemma trimStart_idem s : trimStart (trimStart s) = trimStart s.
Proof.
  induction s as [|c s IH]; simpl; [reflexivity|].
  destruct (isWhiteSpace c) eqn:E; [exact IH|]. simpl. now rewrite E.
Qed.

(** [s.trim()] is empty exactly when [s] holds white space only. *)
Lemma trim_nil s : trim s = [] <-> forallb isWhiteSpace s = true.
Proof.
  unfold trim, trimEnd. split.
  - intros H. apply (f_equal (@rev N)) in H. rewrite rev_involutive in H.
    simpl in H. apply trimStart_nil in H. rewrite forallb_rev in H.
    apply trimStart_nil in H. rewrite trimStart_idem in H.
    now apply trimStart_nil.
  - intros H. apply trimStart_nil in H. now rewrite H.
Qed.

(** ** Objects keyed by category values *)

Section CategoryKeys.

Context {V : Type}.

Lemma get_entries (f : Category -> V) cs c :
  Obj.get (entries f cs) (Category_value c)
  = if mem c cs then Some (f c) else None.
Proof.
  induction cs as [|c' cs IH]; simpl; [reflexivity|].
  fold (Category_eqb c' c). destruct (Category_eqb c' c) eqn:E; simpl.
  - apply Category_eqb_eq in E. now subst.
  - exact IH.
Qed.

Lemma set_entries_absent (f : Category -> V) cs c v :
  mem c cs = false ->
  Obj.set (entries f cs) (Category_value c) v
  = entries f cs ++ [(Category_value c, v)].
Proof.
  induction cs as [|c' cs IH]; simpl; [reflexivity|].
  fold (Category_eqb c' c). destruct (Category_eqb c' c) eqn:E; simpl.
  - discriminate.
  - intros H. now rewrite IH.
Qed.

Lemma set_entries_present (f : Category -> V) cs c v :
  NoDup cs -> mem c cs = true ->
  Obj.set (entries f cs) (Category_value c) v
  = entries (fun c' => if Category_eqb c' c then v else f c') cs.
Proof.
  induction cs as [|c' cs IH]; simpl; [discriminate|].
  intros Hnd. inversion Hnd as [|? ? Hnotin Hnd']; subst.
  fold (Category_eqb c' c). destruct (Category_eqb c' c) eqn:E; simpl.
  - intros _. apply Category_eqb_eq in E. subst c'. f_equal.
    apply map_ext_in. intros c' Hin.
    rewrite Category_eqb_neq; [reflexivity|]. intros ->. contradiction.
  - intros H. now rewrite IH.
Qed.

End CategoryKeys.

(* ================================================================= *)
(** * Facts about the aggregator *)

(** ** The categories that occur *)

Lemma occurring_snoc l t :
  occurring (l ++ [t])
  = if mem (Transaction.category t) (occurring l) then occurring l
    else occurring l ++ [Transaction.category t].
Proof. unfold occurring. now rewrite fold_left_app. Qed.

Lemma occurring_NoDup l : NoDup (occurring l).
Proof.
  induction l as [|t l IH] using rev_ind; [constructor|].
  rewrite occurring_snoc.
  destruct (mem (Transaction.category t) (occurring l)) eqn:E; [exact IH|].
  apply mem_not_In in E.
  apply NoDup_rev in IH. rewrite <- (rev_involutive (_ ++ _)), rev_app_distr.
  apply NoDup_rev. simpl. constructor; [now rewrite <- in_rev|exact IH].
Qed.

Lemma occurring_In l c :
  In c (occurring l) <-> exists t, In t l /\ Transaction.category t = c.
Proof.
  induction l as [|t l IH] using rev_ind.
  - simpl. split; [tauto|]. intros (t & [] & _).
  - rewrite occurring_snoc.
    destruct (mem (Transaction.category t) (occurring l)) eqn:E.
    + rewrite IH. apply mem_In in E. split.
      * intros (t' & Hin & Hc). exists t'. rewrite in_app_iff. tauto.
      * intros (t' & Hin & Hc). apply in_app_iff in Hin as [Hin|[->|[]]].
        -- now exists t'.
        -- subst c. now apply IH.
    + rewrite in_app_iff, IH. simpl. split.
      * intros [(t' & Hin & Hc)|[Hc|[]]].
        -- exists t'. rewrite in_app_iff. tauto.
        -- exists t. rewrite in_app_iff. simpl. tauto.
      * intros (t' & Hin & Hc). apply in_app_iff in Hin as [Hin|[->|[]]].
        -- left. now exists t'.
        -- tauto.
Qed.

Lemma ofCategory_snoc c l t :
  ofCategory c (l ++ [t])
  = ofCategory c l
    ++ (if Category_eqb (Transaction.category t) c then [t] else []).
Proof. unfold ofCategory. now rewrite filter_app. Qed.

Lemma ofCategory_absent c l : ~ In c (occurring l) -> ofCategory c l = [].
Proof.
  intros H. unfold ofCategory.
  destruct (filter _ l) as [|t r] eqn:E; [reflexivity|].
  assert (Hin : In t (filter (fun t => Category_eqb (Transaction.category t) c) l))
    by (rewrite E; now left).
  apply filter_In in Hin as [Hin Hc]. apply Category_eqb_eq in Hc.
  exfalso. apply H, occurring_In. now exists t.
Qed.

Lemma sum_snoc xs x : Number.sum (xs ++ [x]) = Number.add (Number.sum xs) x.
Proof. unfold Number.sum. now rewrite fold_left_app. Qed.

(** ** What the loop of [categorySummary] builds *)

Lemma summaryOf_snoc l t c :
  summaryOf (l ++ [t]) c
  = if Category_eqb c (Transaction.category t) then
      {| ExpenseSummary.category := c;
         ExpenseSummary.total :=
           Number.add (ExpenseSummary.total (summaryOf l c))
                      (Transaction.amount t);
         ExpenseSummary.count := ExpenseSummary.count (summaryOf l c) + 1;
         ExpenseSummary.color := ExpenseSummary.color (summaryOf l c) |}
    else summaryOf l c.
Proof.
  unfold summaryOf. rewrite ofCategory_snoc.
  destruct (Category_eqb c (Transaction.category t)) eqn:E.
  - apply Category_eqb_eq in E. subst c. rewrite Category_eqb_refl.
    cbn [ExpenseSummary.total ExpenseSummary.count ExpenseSummary.color].
    unfold amounts. rewrite map_app, length_app. cbn [map].
    now rewrite sum_snoc.
  - rewrite Category_eqb_neq, app_nil_r; [reflexivity|].
    intros H. subst c. now rewrite Category_eqb_refl in E.
Qed.

(** After the loop, the object holds one property per category that
    occurs, in order of first occurrence, with the summary of the
    category. *)
Lemma forEach_addToSummary l :
  fold_left addToSummary l [] = entries (summaryOf l) (occurring l).
Proof.
  induction l as [|t l IH] using rev_ind; [reflexivity|].
  rewrite fold_left_app, IH. cbn [fold_left].
  pose proof (occurring_NoDup (l ++ [t])) as Hnd.
  rewrite occurring_snoc in *.
  set (c := Transaction.category t) in *.
  unfold addToSummary. fold c. rewrite get_entries.
  destruct (mem c (occurring l)) eqn:E.
  - rewrite get_entries, E.
    rewrite set_entries_present by assumption.
    apply map_ext_in. intros c' _. rewrite summaryOf_snoc. fold c.
    destruct (Category_eqb c' c) eqn:E'; [|reflexivity].
    apply Category_eqb_eq in E'. now subst c'.
  - rewrite set_entries_absent by assumption.
    change (entries (summaryOf l) (occurring l) ++ [(Category_value c, ?v)])
      with (entries (summaryOf l) (occurring l) ++ entries (fun _ => v) [c]).
    assert (Habs : ofCategory c l = []) by (now apply ofCategory_absent, mem_not_In).
    assert (Hext : forall v : ExpenseSummary,
               entries (summaryOf l) (occurring l) ++ entries (fun _ => v) [c]
               = entries (fun c' => if Category_eqb c' c then v else summaryOf l c')
                   (occurring l ++ [c])).
    { intros v. unfold entries. rewrite map_app. f_equal.
      - apply map_ext_in. intros c' Hin. rewrite Category_eqb_neq; [reflexivity|].
        intros ->. now apply mem_not_In in E.
      - simpl. now rewrite Category_eqb_refl. }
    rewrite Hext, get_entries.
    assert (Hm : mem c (occurring l ++ [c]) = true)
      by (apply mem_In, in_app_iff; simpl; tauto).
    rewrite Hm, Category_eqb_refl.
    rewrite set_entries_present by assumption.
    apply map_ext_in. intros c' _. rewrite summaryOf_snoc. fold c.
    destruct (Category_eqb c' c) eqn:E'; [|reflexivity].
    apply Category_eqb_eq in E'. subst c'.
    unfold summaryOf. rewrite Habs. reflexivity.
Qed.

(** ** Sorting *)

Section Sorting.

Context {A : Type} (comparefn : A -> A -> number).

(** [comparefn] never asks for two elements to be exchanged both
    ways. *)
Hypothesis comparefn_asym : forall x y,
  Number.lt Number.zero (comparefn x y) = true ->
  Number.lt Number.zero (comparefn y x) = false.

Lemma insert_Permutation x l :
  Permutation (Array.insert comparefn x l) (x :: l).
Proof.
  induction l as [|y l IH]; simpl; [reflexivity|].
  destruct (Number.lt Number.zero (comparefn x y)); [|reflexivity].
  rewrite IH. apply perm_swap.
Qed.

Lemma sort_Permutation l : Permutation (Array.sort comparefn l) l.
Proof.
  induction l as [|x l IH]; simpl; [reflexivity|].
  rewrite insert_Permutation. now constructor.
Qed.

Lemma insert_HdRel x y l :
  Number.lt Number.zero (comparefn y x) = false ->
  HdRel (fun a b => Number.lt Number.zero (comparefn a b) = false) y l ->
  HdRel (fun a b => Number.lt Number.zero (comparefn a b) = false) y
    (Array.insert comparefn x l).
Proof.
  intros Hyx Hl. destruct l as [|z l]; simpl; [now constructor|].
  destruct (Number.lt Number.zero (comparefn x z)); constructor;
    [now inversion Hl|exact Hyx].
Qed.

Lemma insert_Sorted x l :
  Sorted (fun a b => Number.lt Number.zero (comparefn a b) = false) l ->
  Sorted (fun a b => Number.lt Number.zero (comparefn a b) = false)
    (Array.insert comparefn x l).
Proof.
  induction l as [|y l IH]; simpl; intros Hs.
  - repeat constructor.
  - inversion Hs as [|? ? Hs' Hhd]; subst.
    destruct (Number.lt Number.zero (comparefn x y)) eqn:E.
    + constructor; [now apply IH|].
      apply insert_HdRel; [now apply comparefn_asym|exact Hhd].
    + constructor; [exact Hs|now constructor].
Qed.

(** In the sorted array no element calls for an exchange with its
    successor. *)
Lemma sort_Sorted l :
  Sorted (fun a b => Number.lt Number.zero (comparefn a b) = false)
    (Array.sort comparefn l).
Proof.
  induction l as [|x l IH]; simpl; [constructor|now apply insert_Sorted].
Qed.

End Sorting.

Lemma Sorted_adjacent {A} (R : A -> A -> Prop) l a b :
  Sorted R l -> adjacent a b l -> R a b.
Proof.
  intros Hs (l1 & l2 & ->). induction l1 as [|x l1 IH]; simpl in Hs.
  - inversion Hs as [|? ? _ Hhd]; subst. now inversion Hhd.
  - inversion Hs; subst. now apply IH.
Qed.

Lemma adjacent_In {A} (a b : A) l : adjacent a b l -> In a l /\ In b l.
Proof.
  intros (l1 & l2 & ->). rewrite !in_app_iff. simpl. tauto.
Qed.

(** ** The summary, as a rearrangement of the summaries per category *)

Lemma categorySummary_Permutation l :
  Permutation (categorySummary l) (map (summaryOf l) (occurring l)).
Proof.
  unfold categorySummary. rewrite sort_Permutation, forEach_addToSummary.
  unfold Obj.values, entries. rewrite map_map. reflexivity.
Qed.

(** ** The categories partition the list *)

Lemma filter_disjoint {A} (p q : A -> bool) l :
  (forall x, p x = true -> q x = false) ->
  Permutation (filter (fun x => p x || q x) l) (filter p l ++ filter q l).
Proof.
  intros Hpq. induction l as [|x l IH]; simpl; [reflexivity|].
  destruct (p x) eqn:Ep; simpl.
  - rewrite (Hpq x Ep). now constructor.
  - destruct (q x); [|exact IH].
    rewrite IH. apply Permutation_middle.
Qed.

Lemma groups_Permutation cs l :
  NoDup cs ->
  Permutation (flat_map (fun c => ofCategory c l) cs)
    (filter (fun t => mem (Transaction.category t) cs) l).
Proof.
  induction cs as [|c cs IH]; intros Hnd.
  - simpl. induction l; simpl; auto.
  - inversion Hnd as [|? ? Hnotin Hnd']; subst. simpl.
    rewrite (IH Hnd'). unfold ofCategory. symmetry.
    rewrite <- filter_disjoint.
    + unfold mem. simpl.
      match goal with
      | |- Permutation (filter ?f l) (filter ?g l) =>
          rewrite (filter_ext f g); [reflexivity|]
      end.
      intros t. now rewrite (Category_eqb_sym c).
    + intros t Ht. apply Category_eqb_eq in Ht. subst c.
      now apply mem_not_In.
Qed.

Lemma groups_cover l :
  Permutation (flat_map (fun c => ofCategory c l) (occurring l)) l.
Proof.
  rewrite groups_Permutation by apply occurring_NoDup.
  rewrite forallb_filter_id; [reflexivity|].
  apply forallb_forall. intros t Ht. apply mem_In, occurring_In. now exists t.
Qed.

(** ** Sums of integers *)

Lemma zsum_app xs ys : zsum (xs ++ ys) = (zsum xs + zsum ys)%Z.
Proof. induction xs as [|x xs IH]; simpl; lia. Qed.

Lemma zsum_Permutation xs ys : Permutation xs ys -> zsum xs = zsum ys.
Proof. induction 1; simpl; lia. Qed.

Lemma zsum_abs_nonneg xs : (0 <= zsum (map Z.abs xs))%Z.
Proof. induction xs as [|x xs IH]; simpl; lia. Qed.

Lemma zsum_triangle xs : (Z.abs (zsum xs) <= zsum (map Z.abs xs))%Z.
Proof. induction xs as [|x xs IH]; simpl; lia. Qed.

Lemma zsum_flat_map {A B} (g : B -> Z) (f : A -> list B) l :
  zsum (map g (flat_map f l)) = zsum (map (fun a => zsum (map g (f a))) l).
Proof.
  induction l as [|a l IH]; simpl; [reflexivity|].
  now rewrite map_app, zsum_app, IH.
Qed.

Lemma zsum_le {A} (f g : A -> Z) l :
  (forall a, In a l -> (f a <= g a)%Z) ->
  (zsum (map f l) <= zsum (map g l))%Z.
Proof.
  induction l as [|a l IH]; simpl; intros H; [lia|].
  pose proof (H a (or_introl eq_refl)).
  assert (zsum (map f l) <= zsum (map g l))%Z by (apply IH; auto). lia.
Qed.

(** Summing per category and then over the categories gives the sum
    over the list. *)
Lemma zsum_by_category (g : Transaction -> Z) l :
  zsum (map (fun c => zsum (map g (ofCategory c l))) (occurring l))
  = zsum (map g l).
Proof.
  rewrite <- zsum_flat_map. apply zsum_Permutation, Permutation_map, groups_cover.
Qed.

(** ** Sums of numbers *)

Lemma totalSpent_sum l : totalSpent l = Number.sum (amounts l).
Proof.
  unfold totalSpent, Number.sum, amounts. generalize Number.zero.
  induction l as [|t l IH]; intros a; simpl; [reflexivity|apply IH].
Qed.

Lemma sum_valid xs :
  Forall (fun x => Number.valid x = true) xs ->
  Number.valid (Number.sum xs) = true.
Proof.
  unfold Number.sum. assert (H0 : Number.valid Number.zero = true) by reflexivity.
  revert H0. generalize Number.zero.
  induction xs as [|x xs IH]; intros a Ha Hxs; simpl; [exact Ha|].
  inversion Hxs; subst. apply IH; [|assumption].
  now apply Binary64.add_valid.
Qed.

Lemma sum_not_NaN xs :
  Forall (fun x => Number.isFinite x = true) xs ->
  Number.isNaN (Number.sum xs) = false.
Proof.
  unfold Number.sum. assert (H0 : Number.isNaN Number.zero = false) by reflexivity.
  revert H0. generalize Number.zero.
  induction xs as [|x xs IH]; intros a Ha Hxs; simpl; [exact Ha|].
  inversion Hxs; subst. apply IH; [|assumption].
  now apply Binary64.add_finite_not_NaN.
Qed.

(** Integers add exactly as long as the magnitudes stay within the safe
    range. *)
Lemma fold_add_ofZ zs a :
  (Z.abs a + zsum (map Z.abs zs) <= Number.MAX_SAFE_INTEGER)%Z ->
  fold_left Number.add (map Number.ofZ zs) (Number.ofZ a)
  = Number.ofZ (a + zsum zs).
Proof.
  unfold Number.MAX_SAFE_INTEGER. revert a.
  induction zs as [|z zs IH]; intros a Hb; simpl in *.
  - now rewrite Z.add_0_r.
  - pose proof (zsum_abs_nonneg zs).
    rewrite Binary64.add_ofZ by lia.
    rewrite IH by lia. f_equal. lia.
Qed.

Lemma sum_ofZ zs :
  (zsum (map Z.abs zs) <= Number.MAX_SAFE_INTEGER)%Z ->
  Number.sum (map Number.ofZ zs) = Number.ofZ (zsum zs).
Proof.
  intros Hb. unfold Number.sum.
  change Number.zero with (Number.ofZ 0). rewrite fold_add_ofZ; [reflexivity|].
  simpl. exact Hb.
Qed.

(** Adding [-0] changes nothing. *)
Lemma add_negative_zero x : Number.add x (S754_zero true) = x.
Proof. destruct x as [[|]|[|]| |s m e]; reflexivity. Qed.

(** [-0] is a safe integer. *)
Lemma negative_zero_isSafeInteger : Number.isSafeInteger (S754_zero true).
Proof. split; [now right|vm_compute; discriminate]. Qed.

(** Adding a safe integer to the number of an integer is exact as long
    as the magnitudes stay within the safe range. *)
Lemma add_safe_integer a x :
  Number.isSafeInteger x ->
  (Z.abs a + Z.abs (Number.toZ x) <= Number.MAX_SAFE_INTEGER)%Z ->
  Number.add (Number.ofZ a) x = Number.ofZ (a + Number.toZ x).
Proof.
  unfold Number.MAX_SAFE_INTEGER. intros [[Hx| ->] Hm] Hb.
  - rewrite <- Hx at 1. apply Binary64.add_ofZ; lia.
  - rewrite add_negative_zero. simpl. now rewrite Z.add_0_r.
Qed.

Lemma fold_add_safe_integers xs a :
  Forall Number.isSafeInteger xs ->
  (Z.abs a + zsum (map Z.abs (map Number.toZ xs))
   <= Number.MAX_SAFE_INTEGER)%Z ->
  fold_left Number.add xs (Number.ofZ a)
  = Number.ofZ (a + zsum (map Number.toZ xs)).
Proof.
  intros Hxs. revert a.
  induction Hxs as [|x xs Hx Hxs IH]; intros a Hb; simpl in *.
  - now rewrite Z.add_0_r.
  - pose proof (zsum_abs_nonneg (map Number.toZ xs)).
    rewrite add_safe_integer by (assumption || lia).
    rewrite IH by lia. f_equal. lia.
Qed.

(** The sum of the amounts of a list of safe integers is the number of
    the integer sum. *)
Lemma sum_of_safe_integers l :
  Forall (fun t => Number.isSafeInteger (Transaction.amount t)) l ->
  (zsum (magnitudes l) <= Number.MAX_SAFE_INTEGER)%Z ->
  Number.sum (amounts l) = Number.ofZ (zsum (integers l)).
Proof.
  intros Hl Hb. unfold Number.sum.
  change Number.zero with (Number.ofZ 0).
  unfold amounts, integers, magnitudes in *.
  rewrite fold_add_safe_integers.
  - now rewrite map_map.
  - now rewrite Forall_map.
  - rewrite !map_map. simpl. exact Hb.
Qed.

Lemma magnitudes_ofCategory c l :
  (zsum (magnitudes (ofCategory c l)) <= zsum (magnitudes l))%Z.
Proof.
  unfold ofCategory, magnitudes.
  induction l as [|t l IH]; simpl; [lia|].
  destruct (Category_eqb _ _); simpl; lia.
Qed.

(** The total of a category whose amounts are safe integers. *)
Lemma total_of_integers l c :
  Forall (fun t => Number.isSafeInteger (Transaction.amount t)) l ->
  (zsum (magnitudes l) <= Number.MAX_SAFE_INTEGER)%Z ->
  ExpenseSummary.total (summaryOf l c)
  = Number.ofZ (zsum (integers (ofCategory c l))).
Proof.
  intros Hl Hb. cbn [summaryOf ExpenseSummary.total].
  apply sum_of_safe_integers.
  - unfold ofCategory. rewrite Forall_forall in *. intros t Ht.
    apply filter_In in Ht. now apply Hl.
  - pose proof (magnitudes_ofCategory c l). lia.
Qed.

(** The increment of a count is exact: a count never exceeds the length
    of an array, which is below 2^32. *)
Lemma count_increment_exact (n : nat) :
  (Z.of_nat n < 2 ^ 32)%Z ->
  Number.add (Number.ofZ (Z.of_nat n)) (Number.ofZ 1)
  = Number.ofZ (Z.of_nat (n + 1)).
Proof.
  intros Hn. rewrite Binary64.add_ofZ by lia. f_equal. lia.
Qed.

(* ================================================================= *)
(** * Properties of the aggregator *)

(** The sample numbers are the binary64 values of their decimal
    literals. *)
#[warnings="-inexact-float"]
Lemma decimal_literals :
  Prim2SF 0.3 = n0_3 /\ Prim2SF 0.2 = n0_2 /\ Prim2SF 0.1 = n0_1
  /\ Prim2SF 0.4 = n0_4 /\ Prim2SF 0.6 = n0_6
  /\ Prim2SF 0.6000000000000001 = n0_6000000000000001.
Proof. vm_compute. repeat split. Qed.

(** The additions of the sample numbers, as the processor's binary64
    unit performs them: [0.3 + 0.2 + 0.1] is 0.6 and [0.3 + 0.1 + 0.2] is
    0.6000000000000001. *)
#[warnings="-inexact-float"]
Lemma machine_additions :
  Prim2SF (0.3 + 0.2 + 0.1) = n0_6
  /\ Prim2SF (0.3 + 0.1 + 0.2) = n0_6000000000000001
  /\ Number.add (Number.add n0_3 n0_2) n0_1 = n0_6
  /\ Number.add (Number.add n0_3 n0_1) n0_2 = n0_6000000000000001.
Proof. vm_compute. repeat split. Qed.

(** The scenario of the specification: shopping 1200 (1 transaction)
    before food 800 (2 transactions), and a grand total of 2000. *)
Lemma scenario_summary :
  categorySummary scenario
  = [ {| ExpenseSummary.category := SHOPPING;
         ExpenseSummary.total := Number.ofZ 1200;
         ExpenseSummary.count := 1;
         ExpenseSummary.color := js "#60A5FA" |};
      {| ExpenseSummary.category := FOOD;
         ExpenseSummary.total := Number.ofZ 800;
         ExpenseSummary.count := 2;
         ExpenseSummary.color := js "#F87171" |} ]
  /\ totalSpent scenario = Number.ofZ 2000.
Proof. vm_compute. split; reflexivity. Qed.

(** C1, as stated, fails.  For 0.30 and 0.10 on food and 0.20 on
    shopping the totals are 0.4 and 0.2 and add up to
    0.6000000000000001, while the amounts add up, in the order of the
    list, to 0.6, which is also what [totalSpent] computes: binary64
    addition rounds, and is not associative. *)
Lemma conservation_fails_on_cents :
  cents <> []
  /\ totals (categorySummary cents) = [n0_4; n0_2]
  /\ Number.sum (totals (categorySummary cents)) = n0_6000000000000001
  /\ Number.sum (amounts cents) = n0_6
  /\ totalSpent cents = n0_6
  /\ Number.eqb (Number.sum (totals (categorySummary cents)))
       (Number.sum (amounts cents)) = false.
Proof. vm_compute. repeat split. discriminate. Qed.

(** C1, amended: conservation of the total.  For every transaction list
    whose amounts are safe integers ([-0] among them) with magnitudes
    that add up to at
    most [Number.MAX_SAFE_INTEGER], the totals of the summaries add up to
    the sum of the amounts, which is the grand total [totalSpent] and is
    the number of the integer sum; the two sides are then equal as
    numbers ([===]). *)
Theorem conservation_of_total l :
  Forall (fun t => Number.isSafeInteger (Transaction.amount t)) l ->
  (zsum (magnitudes l) <= Number.MAX_SAFE_INTEGER)%Z ->
  Number.sum (totals (categorySummary l)) = Number.sum (amounts l)
  /\ Number.sum (amounts l) = totalSpent l
  /\ totalSpent l = Number.ofZ (zsum (integers l))
  /\ Number.eqb (Number.sum (totals (categorySummary l)))
       (Number.sum (amounts l)) = true.
Proof.
  intros Hl Hb.
  assert (Hamounts : Number.sum (amounts l) = Number.ofZ (zsum (integers l))).
  { now apply sum_of_safe_integers. }
  assert (Htotals : Number.sum (totals (categorySummary l))
                    = Number.ofZ (zsum (integers l))).
  { pose proof (Permutation_map ExpenseSummary.total
                  (categorySummary_Permutation l)) as Hp.
    rewrite map_map in Hp.
    rewrite (map_ext _ (fun c => Number.ofZ (zsum (integers (ofCategory c l)))))
      in Hp by (intros c; now apply total_of_integers).
    rewrite <- (map_map (fun c => zsum (integers (ofCategory c l))) Number.ofZ)
      in Hp.
    apply Permutation_map_inv in Hp as (zs & Hzs & Hperm).
    unfold totals. rewrite Hzs.
    assert (Hsum : zsum zs = zsum (integers l)).
    { rewrite <- (zsum_Permutation _ _ Hperm). apply zsum_by_category. }
    assert (Habs : (zsum (map Z.abs zs) <= zsum (magnitudes l))%Z).
    { rewrite <- (zsum_Permutation _ _ (Permutation_map Z.abs Hperm)).
      rewrite map_map. unfold magnitudes.
      rewrite <- (zsum_by_category
                    (fun t => Z.abs (Number.toZ (Transaction.amount t))) l).
      apply zsum_le. intros c _. unfold integers.
      rewrite <- (map_map (fun t => Number.toZ (Transaction.amount t)) Z.abs).
      apply zsum_triangle. }
    rewrite sum_ofZ by lia. now rewrite Hsum. }
  repeat split.
  - now rewrite Htotals, Hamounts.
  - symmetry. apply totalSpent_sum.
  - now rewrite totalSpent_sum.
  - rewrite Htotals, Hamounts. apply Binary64.eqb_refl.
    apply Binary64.binary_normalize_valid.
Qed.

Lemma conservation_of_total_witness :
  Number.sum (totals (categorySummary scenario)) = Number.sum (amounts scenario)
  /\ Number.sum (amounts scenario) = totalSpent scenario
  /\ totalSpent scenario = Number.ofZ (zsum (integers scenario))
  /\ Number.eqb (Number.sum (totals (categorySummary scenario)))
       (Number.sum (amounts scenario)) = true.
Proof.
  apply (conservation_of_total scenario).
  - repeat constructor; vm_compute; discriminate.
  - vm_compute. discriminate.
Defined.

(** The total of every summary is a representable number when the
    amounts are. *)
Lemma totals_valid l s :
  Forall (fun t => Number.valid (Transaction.amount t) = true) l ->
  In s (categorySummary l) ->
  Number.valid (ExpenseSummary.total s) = true.
Proof.
  intros Hl Hs.
  apply (Permutation_in _ (categorySummary_Permutation l)) in Hs.
  apply in_map_iff in Hs as (c & <- & _).
  cbn [summaryOf ExpenseSummary.total]. apply sum_valid.
  unfold amounts, ofCategory. rewrite Forall_map, Forall_forall in *.
  intros t Ht. apply filter_In in Ht. now apply Hl.
Qed.

(** No total is NaN when every amount is finite. *)
Lemma totals_not_NaN l :
  Forall (fun t => Number.isFinite (Transaction.amount t) = true) l ->
  Forall (fun s => Number.isNaN (ExpenseSummary.total s) = false)
    (categorySummary l).
Proof.
  intros Hl. apply Forall_forall. intros s Hs.
  apply (Permutation_in _ (categorySummary_Permutation l)) in Hs.
  apply in_map_iff in Hs as (c & <- & _).
  cbn [summaryOf ExpenseSummary.total]. apply sum_not_NaN.
  unfold amounts, ofCategory. rewrite Forall_map, Forall_forall in *.
  intros t Ht. apply filter_In in Ht. now apply Hl.
Qed.


(** Between two summaries of which one immediately follows the other,
    the order of the totals is the order of the array, unless a total is
    NaN. *)
Lemma adjacent_totals_descend l a b :
  Forall (fun t => Number.valid (Transaction.amount t) = true) l ->
  Number.isNaN (ExpenseSummary.total a) = false ->
  Number.isNaN (ExpenseSummary.total b) = false ->
  adjacent a b (categorySummary l) ->
  Number.ge (ExpenseSummary.total a) (ExpenseSummary.total b) = true.
Proof.
  intros Hvalid Ha Hb Hadj.
  pose proof (adjacent_In _ _ _ Hadj) as [Hina Hinb].
  apply Binary64.sub_not_pos_ge;
    try (now apply (totals_valid l)); try assumption.
  apply (Sorted_adjacent
           (fun x y => Number.lt Number.zero (byTotalDescending x y) = false)
           (categorySummary l) a b); [|exact Hadj].
  apply (sort_Sorted byTotalDescending).
  intros x y. apply Binary64.sub_pos_asym.
Qed.



(** Descending order for finite amounts: only infinite amounts can make
    a total NaN.  For every transaction list whose amounts are finite
    numbers, no total of the summary is NaN, and every summary that is
    immediately followed by another has a total [>=] the total of that
    other. *)
Theorem finite_amounts_sort_descending l :
  Forall (fun t => Number.valid (Transaction.amount t) = true) l ->
  Forall (fun t => Number.isFinite (Transaction.amount t) = true) l ->
  Forall (fun s => Number.isNaN (ExpenseSummary.total s) = false)
    (categorySummary l)
  /\ forall a b,
       adjacent a b (categorySummary l) ->
       Number.ge (ExpenseSummary.total a) (ExpenseSummary.total b) = true.
Proof.
  intros Hvalid Hfinite.
  pose proof (totals_not_NaN l Hfinite) as Hnan.
  split; [exact Hnan|].
  intros a b Hadj.
  pose proof (adjacent_In _ _ _ Hadj) as [Ha Hb].
  rewrite Forall_forall in Hnan.
  apply (adjacent_totals_descend l); auto.
Qed.

(** The totals 0.4 (food) and 0.2 (shopping) of the amounts 0.3, 0.2 and
    0.1. *)
Lemma finite_amounts_sort_descending_witness :
  Forall (fun s => Number.isNaN (ExpenseSummary.total s) = false)
    (categorySummary cents)
  /\ Number.ge n0_4 n0_2 = true.
Proof.
  destruct (finite_amounts_sort_descending cents) as [Hnan Horder].
  - repeat constructor.
  - repeat constructor.
  - split; [exact Hnan|].
    apply (Horder
             {| ExpenseSummary.category := FOOD;
                ExpenseSummary.total := n0_4;
                ExpenseSummary.count := 2;
                ExpenseSummary.color := js "#F87171" |}
             {| ExpenseSummary.category := SHOPPING;
                ExpenseSummary.total := n0_2;
                ExpenseSummary.count := 1;
                ExpenseSummary.color := js "#60A5FA" |}).
    exists [], []. vm_compute. reflexivity.
Defined.

(** C6: the counts of the summaries add up to the length of the list. *)
Theorem counts_add_up_to_length l :
  list_sum (counts (categorySummary l)) = List.length l.
Proof.
  unfold counts.
  rewrite (Permutation_map ExpenseSummary.count
             (categorySummary_Permutation l)).
  rewrite map_map. cbn [summaryOf ExpenseSummary.count].
  rewrite <- length_flat_map.
  apply Permutation_length, groups_cover.
Qed.

(** C7: the categories of the summaries are pairwise distinct and are
    exactly the categories of the transactions of the list; the empty
    list has the empty summary and the grand total 0. *)
Theorem categories_distinct_and_occurring l :
  NoDup (categories (categorySummary l))
  /\ (forall c, In c (categories (categorySummary l))
                <-> exists t, In t l /\ Transaction.category t = c)
  /\ categorySummary [] = []
  /\ totalSpent [] = Number.zero.
Proof.
  assert (Hp : Permutation (categories (categorySummary l)) (occurring l)).
  { unfold categories.
    rewrite (Permutation_map ExpenseSummary.category
               (categorySummary_Permutation l)).
    rewrite map_map. cbn [summaryOf ExpenseSummary.category].
    now rewrite map_id. }
  repeat split.
  - apply (Permutation_NoDup (Permutation_sym Hp)), occurring_NoDup.
  - intros Hin. apply occurring_In. now apply (Permutation_in _ Hp).
  - intros Hin. apply (Permutation_in _ (Permutation_sym Hp)).
    now apply occurring_In.
Qed.

(** Every summary is the summary of its category: its total is the sum,
    in the order of the list, of the amounts of the transactions of the
    category, its count is their number, and its color is the color of
    the category. *)
Theorem summary_of_each_category l s :
  In s (categorySummary l) ->
  ExpenseSummary.total s
  = Number.sum (amounts (ofCategory (ExpenseSummary.category s) l))
  /\ ExpenseSummary.count s
     = List.length (ofCategory (ExpenseSummary.category s) l)
  /\ ExpenseSummary.color s = CATEGORY_COLORS (ExpenseSummary.category s)
  /\ ofCategory (ExpenseSummary.category s) l <> [].
Proof.
  intros Hs.
  apply (Permutation_in _ (categorySummary_Permutation l)) in Hs.
  apply in_map_iff in Hs as (c & <- & Hc).
  cbn [summaryOf ExpenseSummary.total ExpenseSummary.count
         ExpenseSummary.color ExpenseSummary.category].
  repeat split.
  - now destruct c.
  - apply occurring_In in Hc as (t & Ht & Hc). intros Hnil.
    assert (Hin : In t (ofCategory c l)).
    { apply filter_In. split; [exact Ht|]. now apply Category_eqb_eq. }
    rewrite Hnil in Hin. contradiction.
Qed.

Lemma summary_of_each_category_witness :
  Number.ofZ 800
  = Number.sum (amounts (ofCategory FOOD scenario))
  /\ 2 = List.length (ofCategory FOOD scenario)
  /\ js "#F87171" = CATEGORY_COLORS FOOD
  /\ ofCategory FOOD scenario <> [].
Proof.
  apply (summary_of_each_category scenario
           {| ExpenseSummary.category := FOOD;
              ExpenseSummary.total := Number.ofZ 800;
              ExpenseSummary.count := 2;
              ExpenseSummary.color := js "#F87171" |}).
  vm_compute. right. left. reflexivity.
Defined.

(* ================================================================= *)
(** * Properties of the analyser *)

Section AnalyzerFacts.

Context {P : Type} (JSON_parse : jsstring -> option P).
Context (generateContent : Request -> Reply) (input : Input).

(** Exactly one request is sent, whatever the service answers. *)
Lemma analyzeStatement_sent :
  sent (analyzeStatement P JSON_parse generateContent input) = [request input].
Proof. reflexivity. Qed.

Lemma analyzeStatement_fulfilled p :
  result (analyzeStatement P JSON_parse generateContent input) = Fulfilled p
  <-> exists text,
      generateContent (request input) = Responds text
      /\ JSON_parse text = Some p.
Proof.
  cbn [analyzeStatement result]. split.
  - destruct (generateContent (request input)) as [cause|text]; [discriminate|].
    destruct (JSON_parse text) as [p'|] eqn:E; [|discriminate].
    intros [= ->]. now exists text.
  - intros (text & -> & ->). reflexivity.
Qed.

Lemma analyzeStatement_rejected e :
  result (analyzeStatement P JSON_parse generateContent input) = Rejected e
  <-> e = {| message := failureMessage |}
      /\ ((exists cause, generateContent (request input) = Throws cause)
          \/ (exists text, generateContent (request input) = Responds text
                           /\ JSON_parse text = None)).
Proof.
  cbn [analyzeStatement result]. split.
  - destruct (generateContent (request input)) as [cause|text].
    + intros [= <-]. split; [reflexivity|]. left. now exists cause.
    + destruct (JSON_parse text) as [p'|] eqn:E; [discriminate|].
      intros [= <-]. split; [reflexivity|]. right. now exists text.
  - intros (-> & [(cause & ->)|(text & -> & ->)]); reflexivity.
Qed.

End AnalyzerFacts.

(** C2, as stated, fails.  The service answers with a text that parses
    to a payload off the response schema (a transaction without
    [amount], of a category outside the enumeration), and
    [analyzeStatement] fulfils its promise with that payload. *)
Lemma stray_payload_is_accepted :
  responseSchema strayPayload = false
  /\ result
       (analyzeStatement json (reading (js "response") strayPayload)
          (answering (Responds (js "response"))) (Text (js "statement")))
     = Fulfilled strayPayload.
Proof. split; reflexivity. Qed.

(** C2, amended: [analyzeStatement] does not check the payload.  It
    fulfils its promise with whatever the text of the response parses
    to, conforming to the schema or not, and rejects with the
    AnalysisFailure error exactly when the call to the service throws or
    the text of the response does not parse. *)
Theorem analyzeStatement_outcome (P : Type) (JSON_parse : jsstring -> option P)
  (generateContent : Request -> Reply) (input : Input) :
  (forall p,
     result (analyzeStatement P JSON_parse generateContent input) = Fulfilled p
     <-> exists text,
         generateContent (request input) = Responds text
         /\ JSON_parse text = Some p)
  /\ (forall e,
        result (analyzeStatement P JSON_parse generateContent input)
        = Rejected e
        <-> e = {| message := failureMessage |}
            /\ ((exists cause, generateContent (request input) = Throws cause)
                \/ (exists text,
                       generateContent (request input) = Responds text
                       /\ JSON_parse text = None))).
Proof.
  split; intros x; [apply analyzeStatement_fulfilled|apply analyzeStatement_rejected].
Qed.

(** C10: every failure of [analyzeStatement] carries the same message,
    'Failed to analyze statement. Please ensure the input is clear.':
    two failing calls, whatever their causes, reject with equal
    errors. *)
Theorem failures_are_indistinguishable (P : Type)
  (JSON_parse : jsstring -> option P)
  (generateContent1 generateContent2 : Request -> Reply)
  (input1 input2 : Input) (e1 e2 : Error) :
  result (analyzeStatement P JSON_parse generateContent1 input1) = Rejected e1 ->
  result (analyzeStatement P JSON_parse generateContent2 input2) = Rejected e2 ->
  message e1
  = js "Failed to analyze statement. Please ensure the input is clear."
  /\ e1 = e2.
Proof.
  intros H1 H2.
  apply analyzeStatement_rejected in H1 as [-> _].
  apply analyzeStatement_rejected in H2 as [-> _].
  split; reflexivity.
Qed.

(** A network error and a response that is not JSON. *)
Lemma failures_are_indistinguishable_witness :
  message {| message := failureMessage |}
  = js "Failed to analyze statement. Please ensure the input is clear."
  /\ {| message := failureMessage |} = {| message := failureMessage |}.
Proof.
  apply (failures_are_indistinguishable AnalysisResult (fun _ => None)
           (answering (Throws (js "fetch failed")))
           (answering (Responds (js "Sorry, I cannot read this image.")))
           (Text (js "statement")) (Text (js "statement"))); reflexivity.
Defined.

(* ================================================================= *)
(** * Properties of the session state *)

Section SessionFacts.

Context (JSON_parse : jsstring -> option AnalysisResult).
Context (generateContent : Request -> Reply).

(** [processAnalysis] sends the one request of [analyzeStatement]. *)
Lemma processAnalysis_sent input st :
  sent (processAnalysis JSON_parse generateContent input st) = [request input].
Proof. reflexivity. Qed.

Lemma processAnalysis_fulfilled input st r :
  result (analyzeStatement AnalysisResult JSON_parse generateContent input)
  = Fulfilled r ->
  result (processAnalysis JSON_parse generateContent input st)
  = {| transactions := transactions st ++ AnalysisResult.transactions r;
       loading := false;
       error := None;
       pastedText := pastedText st;
       inputMode := inputMode st |}.
Proof. intros H. unfold processAnalysis. now rewrite H. Qed.

Lemma processAnalysis_rejected input st e :
  result (analyzeStatement AnalysisResult JSON_parse generateContent input)
  = Rejected e ->
  result (processAnalysis JSON_parse generateContent input st)
  = {| transactions := transactions st;
       loading := false;
       error := Some failureMessage;
       pastedText := pastedText st;
       inputMode := inputMode st |}.
Proof.
  intros H. pose proof H as H'.
  apply analyzeStatement_rejected in H' as [-> _].
  unfold processAnalysis. now rewrite H.
Qed.

End SessionFacts.

(** C3: a failing analysis, whether the call to the service throws or
    the text of the response does not parse, leaves the transaction list
    as it was, records an error message and ends the loading state. *)
Theorem failure_keeps_transactions
  (JSON_parse : jsstring -> option AnalysisResult)
  (generateContent : Request -> Reply) (input : Input) (st : State) :
  (exists cause, generateContent (request input) = Throws cause)
  \/ (exists text, generateContent (request input) = Responds text
                   /\ JSON_parse text = None) ->
  let st' := result (processAnalysis JSON_parse generateContent input st) in
  transactions st' = transactions st
  /\ error st' = Some failureMessage
  /\ loading st' = false.
Proof.
  intros Hfail.
  assert (H : result (analyzeStatement AnalysisResult JSON_parse
                        generateContent input)
              = Rejected {| message := failureMessage |})
    by (apply analyzeStatement_rejected; tauto).
  cbv zeta. rewrite (processAnalysis_rejected _ _ _ _ _ H).
  repeat split.
Qed.

(** The service is unreachable while two transactions are listed. *)
Lemma failure_keeps_transactions_witness :
  let st :=
    result
      (processAnalysis (fun _ => None) (answering (Throws (js "fetch failed")))
         (Text (js "statement"))
         (setTransactions
            (fun _ => AnalysisResult.transactions batch1) initialState)) in
  transactions st = AnalysisResult.transactions batch1
  /\ error st = Some failureMessage
  /\ loading st = false.
Proof.
  apply (failure_keeps_transactions (fun _ => None)
           (answering (Throws (js "fetch failed"))) (Text (js "statement"))
           (setTransactions
              (fun _ => AnalysisResult.transactions batch1) initialState)).
  left. exists (js "fetch failed"). reflexivity.
Defined.

(** C4: a successful analysis appends the transactions of its result, in
    their order, to the list; two successful analyses in a row, starting
    from the empty list, leave the transactions of the first followed by
    those of the second. *)
Theorem success_appends_transactions
  (JSON_parse : jsstring -> option AnalysisResult)
  (generateContent1 generateContent2 : Request -> Reply)
  (input1 input2 : Input) (r1 r2 : AnalysisResult) (st : State) :
  result (analyzeStatement AnalysisResult JSON_parse generateContent1 input1)
  = Fulfilled r1 ->
  result (analyzeStatement AnalysisResult JSON_parse generateContent2 input2)
  = Fulfilled r2 ->
  let st1 := result (processAnalysis JSON_parse generateContent1 input1 st) in
  let st2 := result (processAnalysis JSON_parse generateContent2 input2 st1) in
  transactions st1 = transactions st ++ AnalysisResult.transactions r1
  /\ transactions st2
     = (transactions st ++ AnalysisResult.transactions r1)
         ++ AnalysisResult.transactions r2
  /\ (transactions st = [] ->
      transactions st2
      = AnalysisResult.transactions r1 ++ AnalysisResult.transactions r2).
Proof.
  intros H1 H2. cbv zeta.
  rewrite (processAnalysis_fulfilled _ _ _ _ _ H2).
  rewrite (processAnalysis_fulfilled _ _ _ _ _ H1).
  cbn [transactions]. repeat split. now intros ->.
Qed.

(** Two statements, answered with [batch1] and then [batch2]. *)
Lemma success_appends_transactions_witness :
  let parse := reading (js "first response") batch1 in
  let parse' := fun s =>
    match parse s with
    | Some r => Some r
    | None => reading (js "second response") batch2 s
    end in
  let st1 :=
    result
      (processAnalysis parse' (answering (Responds (js "first response")))
         (Text (js "statement of January")) initialState) in
  let st2 :=
    result
      (processAnalysis parse' (answering (Responds (js "second response")))
         (Text (js "statement of February")) st1) in
  transactions st1
  = transactions initialState ++ AnalysisResult.transactions batch1
  /\ transactions st2
     = (transactions initialState ++ AnalysisResult.transactions batch1)
         ++ AnalysisResult.transactions batch2
  /\ (transactions initialState = [] ->
      transactions st2
      = AnalysisResult.transactions batch1
          ++ AnalysisResult.transactions batch2).
Proof.
  intros parse parse'.
  apply (success_appends_transactions parse'
           (answering (Responds (js "first response")))
           (answering (Responds (js "second response")))
           (Text (js "statement of January"))
           (Text (js "statement of February"))
           batch1 batch2 initialState); reflexivity.
Defined.

(** C8: a confirmed [clearData] leaves the transaction list empty,
    whatever it held (it also clears the pasted text and the error); a
    declined one changes nothing. *)
Theorem clearData_empties_transactions (st : State) :
  transactions (clearData true st) = []
  /\ pastedText (clearData true st) = []
  /\ error (clearData true st) = None
  /\ clearData false st = st.
Proof. repeat split. Qed.

(** C9: an analysis triggered without input is ignored.  With no file
    selected, [handleFileUpload] sends no request and returns the state
    as it was; so does [handlePasteSubmit] when the pasted text is empty
    or holds white space only, and only then. *)
Theorem missing_input_is_ignored
  (JSON_parse : jsstring -> option AnalysisResult)
  (generateContent : Request -> Reply) (st : State) :
  handleFileUpload JSON_parse generateContent None st
  = {| sent := []; result := st |}
  /\ handlePasteSubmit JSON_parse generateContent st
     = if forallb isWhiteSpace (pastedText st)
       then {| sent := []; result := st |}
       else processAnalysis JSON_parse generateContent
              (Text (pastedText st)) st.
Proof.
  split; [reflexivity|]. unfold handlePasteSubmit.
  destruct (forallb isWhiteSpace (pastedText st)) eqn:E.
  - apply trim_nil in E. now rewrite E.
  - destruct (trim (pastedText st)) eqn:Et; [|reflexivity].
    apply trim_nil in Et. congruence.
Qed.

(* ================================================================= *)
(** * Further facts about binary64 arithmetic *)

Module Binary64Order.
Import Number.
#[local] Open Scope Z_scope.

(** [>=] is transitive. *)
Lemma ge_trans x y z : ge x y = true -> ge y z = true -> ge x z = true.
Proof.
  unfold ge, SFleb.
  destruct x as [sx|sx| |sx mx ex], y as [sy|sy| |sy my ey],
           z as [sz|sz| |sz mz ez];
    try (destruct sx); try (destruct sy); try (destruct sz);
    cbn [SFcompare]; try discriminate; try reflexivity;
    try (intros _ H; exact H); try (intros H _; exact H).
  all: change (PosDef.Pos.compare_cont Eq) with Pos.compare.
  all: destruct (Z.compare_spec ez ey), (Z.compare_spec ey ex), (Z.compare_spec ez ex);
       try discriminate; try reflexivity; try lia; subst.
  all: destruct (Pos.compare_spec mz my), (Pos.compare_spec my mx), (Pos.compare_spec mz mx);
       cbn; try discriminate; try reflexivity; try lia.
Qed.

(** Equal numbers have a difference that is not positive. *)
(** The difference of two finite numbers is never NaN. *)
Lemma sub_finite_not_NaN x y :
  isFinite x = true -> isFinite y = true -> isNaN (sub x y) = false.
Proof.
  intros Fx Fy.
  destruct x as [sx|sx| |sx mx ex], y as [sy|sy| |sy my ey];
    try discriminate; try (destruct sx, sy; reflexivity); try reflexivity.
  apply Binary64.binary_normalize_valid.
Qed.

Lemma eqb_sub_not_pos x y : eqb x y = true -> lt zero (sub x y) = false.
Proof.
  unfold eqb, SFeqb.
  destruct x as [sx|sx| |sx mx ex], y as [sy|sy| |sy my ey];
    try (destruct sx); try (destruct sy);
    cbn [SFcompare]; try discriminate; try reflexivity.
  all: change (PosDef.Pos.compare_cont Eq) with Pos.compare.
  all: destruct (Z.compare_spec ex ey); try discriminate;
       destruct (Pos.compare_spec mx my); try discriminate; intros _; subst.
  all: unfold sub, SFsub; rewrite Z.sub_diag; reflexivity.
Qed.
End Binary64Order.

(* ================================================================= *)
(** * Further facts about lists and sorting *)

(** ** Positions in a list *)

Lemma precedes_head {A} (x v : A) l : In v l -> precedes x v (x :: l).
Proof.
  intros Hin. apply in_split in Hin as (l2 & l3 & ->).
  now exists [], l2, l3.
Qed.

Lemma precedes_cons {A} (x u v : A) l : precedes u v l -> precedes u v (x :: l).
Proof. intros (l1 & l2 & l3 & ->). now exists (x :: l1), l2, l3. Qed.

Lemma precedes_cons_inv {A} (x u v : A) l :
  precedes u v (x :: l) -> (u = x /\ In v l) \/ precedes u v l.
Proof.
  intros (l1 & l2 & l3 & H). destruct l1 as [|y l1]; simpl in H.
  - injection H as -> ->. left. split; [reflexivity|].
    rewrite in_app_iff. simpl. tauto.
  - injection H as -> ->. right. now exists l1, l2, l3.
Qed.

Lemma precedes_map {A B} (f : A -> B) u v l :
  precedes u v l -> precedes (f u) (f v) (map f l).
Proof.
  intros (l1 & l2 & l3 & ->). exists (map f l1), (map f l2), (map f l3).
  now rewrite !map_app; simpl; rewrite map_app.
Qed.

Lemma precedes_In {A} (u v : A) l : precedes u v l -> In u l /\ In v l.
Proof.
  intros (l1 & l2 & l3 & ->).
  split; apply in_or_app; right; [now left|].
  right. apply in_or_app. right. now left.
Qed.

Lemma precedes_length {A} (u v : A) l : precedes u v l -> 2 <= List.length l.
Proof.
  intros (l1 & l2 & l3 & ->). rewrite length_app. simpl.
  rewrite length_app. simpl. lia.
Qed.

Lemma adjacent_Sorted {A} (R : A -> A -> Prop) l :
  (forall a b, adjacent a b l -> R a b) -> Sorted R l.
Proof.
  induction l as [|x l IH]; intros H; constructor.
  - apply IH. intros a b (l1 & l2 & ->). apply H. now exists (x :: l1), l2.
  - destruct l as [|y l]; constructor. apply H. now exists [], l.
Qed.

Lemma StronglySorted_precedes {A} (R : A -> A -> Prop) l a b :
  StronglySorted R l -> precedes a b l -> R a b.
Proof.
  induction 1 as [|x l Hs IH Hall]; intros Hp.
  - apply precedes_length in Hp. simpl in Hp. lia.
  - apply precedes_cons_inv in Hp as [[-> Hin]|Hp]; [|now apply IH].
    rewrite Forall_forall in Hall. now apply Hall.
Qed.

(** ** Stability of the sort *)

Section Stability.

Context {A : Type} (comparefn : A -> A -> number).

Lemma insert_In x v l : In v (Array.insert comparefn x l) -> v = x \/ In v l.
Proof.
  intros H. apply (Permutation_in _ (insert_Permutation comparefn x l)) in H.
  destruct H; auto.
Qed.

Lemma precedes_insert x u v l :
  precedes u v (Array.insert comparefn x l) ->
  (u = x /\ In v l) \/ precedes u v l
  \/ (v = x /\ Number.lt Number.zero (comparefn x u) = true).
Proof.
  induction l as [|y l IH]; simpl.
  - intros Hp. apply precedes_length in Hp. simpl in Hp. lia.
  - destruct (Number.lt Number.zero (comparefn x y)) eqn:E; intros Hp.
    + apply precedes_cons_inv in Hp as [[-> Hin]|Hp].
      * apply insert_In in Hin as [->|Hin]; [now right; right|].
        right. left. now apply precedes_head.
      * apply IH in Hp as [[-> Hin]|[Hp|Hp]].
        -- left. split; [reflexivity|now right].
        -- right. left. now apply precedes_cons.
        -- now right; right.
    + apply precedes_cons_inv in Hp as [Hp|Hp]; [now left|now right; left].
Qed.

(** An element comes before another in the sorted array only if it did
    so in the array, or if the comparison moved the other behind it. *)
Lemma precedes_sort u v l :
  precedes u v (Array.sort comparefn l) ->
  precedes u v l \/ Number.lt Number.zero (comparefn v u) = true.
Proof.
  revert u v. induction l as [|x l IH]; simpl; intros u v Hp.
  - apply precedes_length in Hp. simpl in Hp. lia.
  - apply precedes_insert in Hp as [[-> Hin]|[Hp|[-> Hp]]].
    + left. apply precedes_head.
      now apply (Permutation_in _ (sort_Permutation comparefn l)).
    + apply IH in Hp as [Hp|Hp]; [left; now apply precedes_cons|now right].
    + now right.
Qed.

End Stability.

(** ** First occurrences *)

Lemma precedes_snoc_inv {A} (u v x : A) l :
  precedes u v (l ++ [x]) -> precedes u v l \/ (v = x /\ In u l).
Proof.
  intros (l1 & l2 & l3 & H).
  destruct l3 as [|z l3] using rev_ind.
  - replace (l1 ++ u :: l2 ++ [v]) with ((l1 ++ u :: l2) ++ [v]) in H
      by (now rewrite <- app_assoc).
    apply app_inj_tail in H as [-> ->]. right. split; [reflexivity|].
    apply in_or_app. right. now left.
  - clear IHl3.
    replace (l1 ++ u :: l2 ++ v :: l3 ++ [z])
      with ((l1 ++ u :: l2 ++ v :: l3) ++ [z]) in H
      by (rewrite <- app_assoc; simpl; now rewrite <- app_assoc).
    apply app_inj_tail in H as [-> ->]. left. now exists l1, l2, l3.
Qed.

Lemma first_transaction_of c l :
  In c (occurring l) ->
  exists l1 t l2,
    l = l1 ++ t :: l2 /\ Transaction.category t = c
    /\ forall t', In t' l1 -> Transaction.category t' <> c.
Proof.
  intros H. apply occurring_In in H as (t & Ht & Hc).
  induction l as [|t0 l IH]; [contradiction|].
  destruct (Category_eqb (Transaction.category t0) c) eqn:E.
  - apply Category_eqb_eq in E. exists [], t0, l. repeat split; auto.
  - destruct Ht as [->|Ht].
    + subst c. now rewrite Category_eqb_refl in E.
    + destruct (IH Ht) as (l1 & t1 & l2 & -> & H1 & H2).
      exists (t0 :: l1), t1, l2. repeat split; auto.
      intros t' [<-|Hin]; [|now apply H2].
      intros Heq. rewrite Heq, Category_eqb_refl in E. discriminate.
Qed.

Lemma occurring_precedes c1 c2 l :
  precedes c1 c2 (occurring l) ->
  exists l1 t l2,
    l = l1 ++ t :: l2 /\ Transaction.category t = c1
    /\ forall t', In t' l1 ->
         Transaction.category t' <> c1 /\ Transaction.category t' <> c2.
Proof.
  induction l as [|t l IH] using rev_ind; intros Hp.
  - apply precedes_length in Hp. simpl in Hp. lia.
  - rewrite occurring_snoc in Hp.
    assert (Hold : precedes c1 c2 (occurring l) ->
                   exists l1 t0 l2,
                     l ++ [t] = l1 ++ t0 :: l2 /\ Transaction.category t0 = c1
                     /\ forall t', In t' l1 ->
                          Transaction.category t' <> c1
                          /\ Transaction.category t' <> c2).
    { intros H. destruct (IH H) as (l1 & t1 & l2 & -> & H1 & H2).
      exists l1, t1, (l2 ++ [t]).
      split; [now rewrite <- app_assoc|split; [exact H1|exact H2]]. }
    destruct (mem (Transaction.category t) (occurring l)) eqn:E; [auto|].
    apply precedes_snoc_inv in Hp as [Hp|[-> Hin]]; [auto|].
    destruct (first_transaction_of c1 l Hin) as (l1 & t1 & l2 & -> & H1 & H2).
    exists l1, t1, (l2 ++ [t]).
    split; [now rewrite <- app_assoc|split; [exact H1|]].
    intros t' Hin'. split; [now apply H2|].
    intros Heq. apply mem_not_In in E. apply E, occurring_In.
    exists t'. split; [|exact Heq]. apply in_or_app. now left.
Qed.

Lemma values_entries {V} (f : Category -> V) cs :
  Obj.values (entries f cs) = map f cs.
Proof. unfold Obj.values, entries. now rewrite map_map. Qed.

Lemma categories_Permutation l :
  Permutation (categories (categorySummary l)) (occurring l).
Proof.
  unfold categories.
  rewrite (Permutation_map ExpenseSummary.category
             (categorySummary_Permutation l)).
  rewrite map_map. cbn [summaryOf ExpenseSummary.category].
  now rewrite map_id.
Qed.

Lemma occurring_length l : List.length (occurring l) <= List.length l.
Proof.
  induction l as [|t l IH] using rev_ind; [simpl; lia|].
  rewrite occurring_snoc, length_app. simpl.
  destruct (mem _ _); [|rewrite length_app; simpl]; lia.
Qed.

(** The colors of the categories are pairwise distinct. *)
Lemma CATEGORY_COLORS_inj a b :
  or_else (CATEGORY_COLORS a) (js "#94A3B8")
  = or_else (CATEGORY_COLORS b) (js "#94A3B8") -> a = b.
Proof.
  destruct a, b; intros H; try reflexivity; vm_compute in H; discriminate.
Qed.

(** On summaries of finite totals the comparison function of the sort
    never returns NaN. *)
Lemma byTotalDescending_not_NaN a b :
  Number.isFinite (ExpenseSummary.total a) = true ->
  Number.isFinite (ExpenseSummary.total b) = true ->
  Number.isNaN (byTotalDescending a b) = false.
Proof.
  intros Ha Hb. unfold byTotalDescending.
  now apply Binary64Order.sub_finite_not_NaN.
Qed.

(** No entry of the color table is the empty string: the fallback of
    [CATEGORY_COLORS[c] || '#94A3B8'] is not used for a category. *)
Lemma CATEGORY_COLORS_truthy c :
  or_else (CATEGORY_COLORS c) (js "#94A3B8") = CATEGORY_COLORS c.
Proof. destruct c; reflexivity. Qed.

(* ================================================================= *)
(** * Further properties of the aggregator and of the chart *)

(** Ties keep the order of first occurrence.  For a transaction list
    whose amounts are representable numbers and whose summary holds
    finite totals only, neither NaN nor an infinity (the difference of
    two totals is then never NaN, the comparison function of the sort is
    consistent, and the order of the sorted array is the one stable
    arrangement): when a summary comes before another of an equal total,
    a transaction of its category comes in the list before every
    transaction of the category of the other.  The sort is stable, and
    the object enumerates the categories in the order in which the loop
    met them. *)
Theorem ties_keep_first_occurrence l a b :
  Forall (fun t => Number.valid (Transaction.amount t) = true) l ->
  Forall (fun s => Number.isFinite (ExpenseSummary.total s) = true)
    (categorySummary l) ->
  precedes a b (categorySummary l) ->
  Number.eqb (ExpenseSummary.total a) (ExpenseSummary.total b) = true ->
  exists l1 t l2,
    l = l1 ++ t :: l2
    /\ Transaction.category t = ExpenseSummary.category a
    /\ forall t', In t' l1 ->
         Transaction.category t' <> ExpenseSummary.category a
         /\ Transaction.category t' <> ExpenseSummary.category b.
Proof.
  intros _ _ Hp Heq. unfold categorySummary in Hp.
  apply precedes_sort in Hp as [Hp|Hp].
  - rewrite forEach_addToSummary, values_entries in Hp.
    apply (precedes_map ExpenseSummary.category) in Hp.
    rewrite map_map in Hp. cbn [summaryOf ExpenseSummary.category] in Hp.
    rewrite map_id in Hp. now apply occurring_precedes.
  - unfold byTotalDescending in Hp.
    now rewrite (Binary64Order.eqb_sub_not_pos _ _ Heq) in Hp.
Qed.

(** Transport and food both total 250; transport was met first. *)
Lemma ties_keep_first_occurrence_witness :
  exists l1 t l2,
    tied = l1 ++ t :: l2
    /\ Transaction.category t = TRANSPORT
    /\ forall t', In t' l1 ->
         Transaction.category t' <> TRANSPORT
         /\ Transaction.category t' <> FOOD.
Proof.
  apply (ties_keep_first_occurrence tied
           {| ExpenseSummary.category := TRANSPORT;
              ExpenseSummary.total := Number.ofZ 250;
              ExpenseSummary.count := 1;
              ExpenseSummary.color := js "#FBBF24" |}
           {| ExpenseSummary.category := FOOD;
              ExpenseSummary.total := Number.ofZ 250;
              ExpenseSummary.count := 1;
              ExpenseSummary.color := js "#F87171" |}).
  - repeat constructor.
  - vm_compute. repeat constructor.
  - exists [ {| ExpenseSummary.category := HOUSING;
               ExpenseSummary.total := Number.ofZ 900;
               ExpenseSummary.count := 1;
               ExpenseSummary.color := js "#FB923C" |} ], [], [].
    vm_compute. reflexivity.
  - vm_compute. reflexivity.
Defined.

(** The order of the totals holds between any two summaries, adjacent
    or not: when the amounts are representable numbers and no total is
    NaN, a summary that comes before another has a total [>=] the total
    of the other. *)
Theorem earlier_totals_are_greater l a b :
  Forall (fun t => Number.valid (Transaction.amount t) = true) l ->
  Forall (fun s => Number.isNaN (ExpenseSummary.total s) = false)
    (categorySummary l) ->
  precedes a b (categorySummary l) ->
  Number.ge (ExpenseSummary.total a) (ExpenseSummary.total b) = true.
Proof.
  intros Hvalid Hnan Hp.
  apply (StronglySorted_precedes
           (fun x y => Number.ge (ExpenseSummary.total x)
                         (ExpenseSummary.total y) = true)
           (categorySummary l)); [|exact Hp].
  apply Sorted_StronglySorted.
  - intros x y z Hxy Hyz. exact (Binary64Order.ge_trans _ _ _ Hxy Hyz).
  - apply adjacent_Sorted. intros x y Hadj.
    pose proof (adjacent_In _ _ _ Hadj) as [Hx Hy].
    rewrite Forall_forall in Hnan.
    apply (adjacent_totals_descend l); auto.
Qed.

(** Housing (900) and food (250), with transport between them. *)
Lemma earlier_totals_are_greater_witness :
  Number.ge (Number.ofZ 900) (Number.ofZ 250) = true.
Proof.
  apply (earlier_totals_are_greater tied
           {| ExpenseSummary.category := HOUSING;
              ExpenseSummary.total := Number.ofZ 900;
              ExpenseSummary.count := 1;
              ExpenseSummary.color := js "#FB923C" |}
           {| ExpenseSummary.category := FOOD;
              ExpenseSummary.total := Number.ofZ 250;
              ExpenseSummary.count := 1;
              ExpenseSummary.color := js "#F87171" |}).
  - repeat constructor.
  - vm_compute. repeat constructor.
  - exists [], [ {| ExpenseSummary.category := TRANSPORT;
                   ExpenseSummary.total := Number.ofZ 250;
                   ExpenseSummary.count := 1;
                   ExpenseSummary.color := js "#FBBF24" |} ], [].
    vm_compute. reflexivity.
Defined.

(** The summary has at most eight entries, the number of categories, and
    at most one per transaction; it is empty for the empty list only. *)
Theorem summary_size l :
  List.length (categorySummary l) <= 8
  /\ List.length (categorySummary l) <= List.length l
  /\ (categorySummary l = [] <-> l = []).
Proof.
  assert (Hlen : List.length (categorySummary l) = List.length (occurring l)).
  { rewrite <- (Permutation_length (categories_Permutation l)).
    unfold categories. now rewrite length_map. }
  repeat split.
  - rewrite Hlen.
    apply (NoDup_incl_length (occurring_NoDup l) (l' := Category_values)).
    intros c _. destruct c; simpl; tauto.
  - rewrite Hlen. apply occurring_length.
  - intros H. destruct l as [|t l]; [reflexivity|].
    assert (Hin : In (Transaction.category t) (occurring (t :: l)))
      by (apply occurring_In; exists t; simpl; auto).
    rewrite H in Hlen. destruct (occurring (t :: l)); [contradiction|discriminate].
  - now intros ->.
Qed.

(** The chart follows the summary.  For transactions whose category is
    one of the eight members of the enumeration [Category], the declared
    type of [t.category], which the type [Category] of this development
    expresses: the entries of the chart carry the categories and the
    totals of the summaries in the same order; each slice is filled with
    the color of its summary in the legend, which is the entry of the
    color table for its category, so that the fallback ['#94A3B8'] is
    not used; and no two slices have the same fill.  (The fallback is
    itself the color of [Category.MISC]: the last part rests on the
    categories being members of the enumeration.) *)
Theorem chart_follows_summary l :
  map ChartEntry.name (chartData l) = categories (categorySummary l)
  /\ map ChartEntry.value (chartData l) = totals (categorySummary l)
  /\ map cellFill (chartData l)
     = map ExpenseSummary.color (categorySummary l)
  /\ map cellFill (chartData l)
     = map (fun e => CATEGORY_COLORS (ChartEntry.name e)) (chartData l)
  /\ NoDup (map cellFill (chartData l)).
Proof.
  assert (Hfill : map cellFill (chartData l)
                  = map (fun c => or_else (CATEGORY_COLORS c) (js "#94A3B8"))
                      (categories (categorySummary l))).
  { unfold chartData, categories. now rewrite !map_map. }
  repeat split.
  - unfold chartData, categories. now rewrite map_map.
  - unfold chartData, totals. now rewrite map_map.
  - rewrite Hfill. unfold categories. rewrite map_map.
    apply map_ext_in. intros s Hs.
    apply (Permutation_in _ (categorySummary_Permutation l)) in Hs.
    apply in_map_iff in Hs as (c & <- & _). reflexivity.
  - apply map_ext. intros e. apply CATEGORY_COLORS_truthy.
  - rewrite Hfill. apply Injective_map_NoDup.
    + intros a b. apply CATEGORY_COLORS_inj.
    + apply (Permutation_NoDup (Permutation_sym (categories_Permutation l))).
      apply occurring_NoDup.
Qed.

(* ================================================================= *)
(** * Further properties of the analyser and of the handlers *)

(** ** Data URLs *)

Lemma split_without sep s : ~ In sep s -> split sep s = [s].
Proof.
  induction s as [|c s IH]; simpl; [reflexivity|]. intros H.
  destruct (N.eqb_spec c sep) as [->|_]; [exfalso; apply H; now left|].
  rewrite IH; [reflexivity|]. intros Hin. apply H. now right.
Qed.

Lemma split_at_first sep h s :
  ~ In sep h -> split sep (h ++ sep :: s) = h :: split sep s.
Proof.
  induction h as [|c h IH]; simpl; intros H.
  - now rewrite N.eqb_refl.
  - destruct (N.eqb_spec c sep) as [->|_]; [exfalso; apply H; now left|].
    rewrite IH; [reflexivity|]. intros Hin. apply H. now right.
Qed.

Section FurtherSessionFacts.

Context (JSON_parse : jsstring -> option AnalysisResult).
Context (generateContent : Request -> Reply).

(** What an analysis does to the state, whatever its outcome. *)
Lemma processAnalysis_result input st :
  result (processAnalysis JSON_parse generateContent input st)
  = match result (analyzeStatement AnalysisResult JSON_parse
                    generateContent input) with
    | Fulfilled r =>
        {| transactions := transactions st ++ AnalysisResult.transactions r;
           loading := false; error := None;
           pastedText := pastedText st; inputMode := inputMode st |}
    | Rejected _ =>
        {| transactions := transactions st;
           loading := false; error := Some failureMessage;
           pastedText := pastedText st; inputMode := inputMode st |}
    end.
Proof.
  destruct (result (analyzeStatement AnalysisResult JSON_parse
                      generateContent input)) as [r|e] eqn:E.
  - now apply processAnalysis_fulfilled.
  - now apply (processAnalysis_rejected _ _ _ _ e).
Qed.

End FurtherSessionFacts.

(** The part of a data URL after its comma is what is sent.  For a file
    read as [header,payload], neither part holding a comma,
    [handleFileUpload] analyses the image [{ data: payload, mimeType:
    file.type }]. *)
Theorem data_url_payload_is_sent
  (JSON_parse : jsstring -> option AnalysisResult)
  (generateContent : Request -> Reply)
  (header payload mime : jsstring) (st : State) :
  ~ In comma header -> ~ In comma payload ->
  handleFileUpload JSON_parse generateContent
    (Some {| dataURL := header ++ comma :: payload; type := mime |}) st
  = processAnalysis JSON_parse generateContent
      (Image {| data := Some payload; mimeType := mime |}) st
  /\ sent (handleFileUpload JSON_parse generateContent
             (Some {| dataURL := header ++ comma :: payload; type := mime |})
             st)
     = [ {| model := js "gemini-3-flash-preview";
            contents :=
              Parts (js "Extract transactions from this Indian bank statement image and categorize them into INR values.")
                {| data := Some payload; mimeType := mime |} |} ].
Proof.
  intros Hh Hp. unfold handleFileUpload. cbn [dataURL type].
  rewrite split_at_first, split_without by assumption. split; reflexivity.
Qed.

Lemma data_url_payload_is_sent_witness :
  handleFileUpload (fun _ => None) (answering (Throws (js "fetch failed")))
    (Some receipt) initialState
  = processAnalysis (fun _ => None) (answering (Throws (js "fetch failed")))
      (Image {| data := Some (js "iVBORw0KGgo="); mimeType := js "image/png" |})
      initialState
  /\ sent (handleFileUpload (fun _ => None)
             (answering (Throws (js "fetch failed"))) (Some receipt)
             initialState)
     = [ {| model := js "gemini-3-flash-preview";
            contents :=
              Parts (js "Extract transactions from this Indian bank statement image and categorize them into INR values.")
                {| data := Some (js "iVBORw0KGgo=");
                   mimeType := js "image/png" |} |} ].
Proof.
  apply (data_url_payload_is_sent (fun _ => None)
           (answering (Throws (js "fetch failed")))
           (js "data:image/png;base64") (js "iVBORw0KGgo=") (js "image/png")
           initialState); vm_compute; intuition discriminate.
Defined.

(** A data URL without a comma is not refused: the second piece of the
    split is [undefined], and [handleFileUpload] still sends its request,
    with an image that has no data. *)
Theorem data_url_without_comma_is_sent
  (JSON_parse : jsstring -> option AnalysisResult)
  (generateContent : Request -> Reply) (url mime : jsstring) (st : State) :
  ~ In comma url ->
  handleFileUpload JSON_parse generateContent
    (Some {| dataURL := url; type := mime |}) st
  = processAnalysis JSON_parse generateContent
      (Image {| data := None; mimeType := mime |}) st
  /\ List.length
       (sent (handleFileUpload JSON_parse generateContent
                (Some {| dataURL := url; type := mime |}) st)) = 1.
Proof.
  intros Hu. unfold handleFileUpload. cbn [dataURL type].
  rewrite split_without by assumption. split; reflexivity.
Qed.

Lemma data_url_without_comma_is_sent_witness :
  handleFileUpload (fun _ => None) (answering (Throws (js "fetch failed")))
    (Some {| dataURL := js "data:"; type := js "" |}) initialState
  = processAnalysis (fun _ => None) (answering (Throws (js "fetch failed")))
      (Image {| data := None; mimeType := js "" |}) initialState
  /\ List.length
       (sent (handleFileUpload (fun _ => None)
                (answering (Throws (js "fetch failed")))
                (Some {| dataURL := js "data:"; type := js "" |})
                initialState)) = 1.
Proof.
  apply (data_url_without_comma_is_sent (fun _ => None)
           (answering (Throws (js "fetch failed"))) (js "data:") (js "")
           initialState); vm_compute; intuition discriminate.
Defined.

(** An analysis touches the transaction list, the error and the loading
    flag only.  It keeps the pasted text and the input mode, ends with
    the loading flag off, only ever extends the list, and, whatever error
    was shown before, leaves the error banner shown exactly when it
    failed, with the message of [analyzeStatement] (the fallback message
    of [processAnalysis] is never used). *)
Theorem analysis_frame (JSON_parse : jsstring -> option AnalysisResult)
  (generateContent : Request -> Reply) (input : Input) (st : State) :
  let outcome :=
    result (analyzeStatement AnalysisResult JSON_parse generateContent input) in
  let st' := result (processAnalysis JSON_parse generateContent input st) in
  pastedText st' = pastedText st
  /\ inputMode st' = inputMode st
  /\ loading st' = false
  /\ (exists added, transactions st' = transactions st ++ added)
  /\ error st'
     = match outcome with
       | Fulfilled _ => None
       | Rejected _ => Some failureMessage
       end
  /\ errorShown st'
     = match outcome with
       | Fulfilled _ => false
       | Rejected _ => true
       end.
Proof.
  cbv zeta. rewrite processAnalysis_result.
  destruct (result (analyzeStatement _ _ _ _)) as [r|e];
    cbn [pastedText inputMode loading transactions error errorShown];
    repeat split.
  - now exists (AnalysisResult.transactions r).
  - exists []. now rewrite app_nil_r.
Qed.

(** When the Analyze Text button is enabled, a click on it starts an
    analysis of the pasted text, which is sent as typed (it is trimmed
    for the test only). *)
Theorem enabled_button_starts_analysis
  (JSON_parse : jsstring -> option AnalysisResult)
  (generateContent : Request -> Reply) (st : State) :
  analyzeDisabled st = false ->
  handlePasteSubmit JSON_parse generateContent st
  = processAnalysis JSON_parse generateContent (Text (pastedText st)) st
  /\ sent (handlePasteSubmit JSON_parse generateContent st)
     = [ {| model := js "gemini-3-flash-preview";
            contents :=
              Prompt (js "Analyze this Indian bank statement text: "
                        ++ [newline; newline] ++ pastedText st) |} ].
Proof.
  unfold analyzeDisabled, handlePasteSubmit. intros H.
  apply orb_false_iff in H as [_ H].
  destruct (trim (pastedText st)); [discriminate|]. split; reflexivity.
Qed.

Lemma enabled_button_starts_analysis_witness :
  let st := setPastedText (js "  12 Jan SWIGGY 450.00 ") initialState in
  handlePasteSubmit (fun _ => None) (answering (Throws (js "fetch failed"))) st
  = processAnalysis (fun _ => None) (answering (Throws (js "fetch failed")))
      (Text (pastedText st)) st
  /\ sent (handlePasteSubmit (fun _ => None)
             (answering (Throws (js "fetch failed"))) st)
     = [ {| model := js "gemini-3-flash-preview";
            contents :=
              Prompt (js "Analyze this Indian bank statement text: "
                        ++ [newline; newline] ++ pastedText st) |} ].
Proof.
  apply (enabled_button_starts_analysis (fun _ => None)
           (answering (Throws (js "fetch failed")))
           (setPastedText (js "  12 Jan SWIGGY 450.00 ") initialState)).
  vm_compute. reflexivity.
Defined.

(** The handlers do not look at the loading flag.  While an analysis is
    in flight the Analyze Text button and the file input are disabled,
    but [handlePasteSubmit] with a text that is not blank, and
    [handleFileUpload] with a file, would send one more request: the
    [disabled] attributes are the only guard against a second request. *)
Theorem handlers_ignore_loading
  (JSON_parse : jsstring -> option AnalysisResult)
  (generateContent : Request -> Reply) (file : File) (st : State) :
  loading st = true ->
  forallb isWhiteSpace (pastedText st) = false ->
  analyzeDisabled st = true
  /\ inputDisabled st = true
  /\ List.length (sent (handlePasteSubmit JSON_parse generateContent st)) = 1
  /\ List.length
       (sent (handleFileUpload JSON_parse generateContent (Some file) st)) = 1.
Proof.
  intros Hl Hw. unfold analyzeDisabled, inputDisabled. rewrite Hl.
  repeat split.
  unfold handlePasteSubmit. destruct (trim (pastedText st)) eqn:E; [|reflexivity].
  apply trim_nil in E. congruence.
Qed.

Lemma handlers_ignore_loading_witness :
  let st := setLoading true (setPastedText (js "12 Jan SWIGGY 450.00")
                               initialState) in
  analyzeDisabled st = true
  /\ inputDisabled st = true
  /\ List.length
       (sent (handlePasteSubmit (fun _ => None)
                (answering (Throws (js "fetch failed"))) st)) = 1
  /\ List.length
       (sent (handleFileUpload (fun _ => None)
                (answering (Throws (js "fetch failed"))) (Some receipt) st))
     = 1.
Proof.
  apply (handlers_ignore_loading (fun _ => None)
           (answering (Throws (js "fetch failed"))) receipt
           (setLoading true (setPastedText (js "12 Jan SWIGGY 450.00")
                               initialState))); reflexivity.
Defined.

(** The total and the currency of a result are not used: two successful
    analyses whose results hold the same transactions lead from a state
    to the same state. *)
Theorem only_transactions_of_result_are_used
  (JSON_parse1 JSON_parse2 : jsstring -> option AnalysisResult)
  (generateContent1 generateContent2 : Request -> Reply)
  (input1 input2 : Input) (r1 r2 : AnalysisResult) (st : State) :
  result (analyzeStatement AnalysisResult JSON_parse1 generateContent1 input1)
  = Fulfilled r1 ->
  result (analyzeStatement AnalysisResult JSON_parse2 generateContent2 input2)
  = Fulfilled r2 ->
  AnalysisResult.transactions r1 = AnalysisResult.transactions r2 ->
  result (processAnalysis JSON_parse1 generateContent1 input1 st)
  = result (processAnalysis JSON_parse2 generateContent2 input2 st).
Proof.
  intros H1 H2 Heq.
  rewrite (processAnalysis_fulfilled _ _ _ _ _ H1).
  rewrite (processAnalysis_fulfilled _ _ _ _ _ H2). now rewrite Heq.
Qed.

Lemma only_transactions_of_result_are_used_witness :
  result
    (processAnalysis (reading (js "response") batch1)
       (answering (Responds (js "response"))) (Text (js "statement"))
       initialState)
  = result
      (processAnalysis (reading (js "response") batch1')
         (answering (Responds (js "response"))) (Text (js "statement"))
         initialState).
Proof.
  apply (only_transactions_of_result_are_used
           (reading (js "response") batch1) (reading (js "response") batch1')
           (answering (Responds (js "response")))
           (answering (Responds (js "response")))
           (Text (js "statement")) (Text (js "statement"))
           batch1 batch1' initialState); reflexivity.
Defined.

(** ** Sessions *)

Section SessionInvariants.

Context (JSON_parse : jsstring -> option AnalysisResult).

(** What holds between two events. *)
Lemma handle_at_rest e st :
  loading st = false ->
  error st = None \/ error st = Some failureMessage ->
  loading (result (handle JSON_parse e st)) = false
  /\ (error (result (handle JSON_parse e st)) = None
      \/ error (result (handle JSON_parse e st)) = Some failureMessage).
Proof.
  intros Hl He.
  assert (Hpa : forall gc input,
             loading (result (processAnalysis JSON_parse gc input st)) = false
             /\ (error (result (processAnalysis JSON_parse gc input st)) = None
                 \/ error (result (processAnalysis JSON_parse gc input st))
                    = Some failureMessage)).
  { intros gc input. rewrite processAnalysis_result.
    destruct (result (analyzeStatement _ _ _ _)); cbn; auto. }
  destruct e as [[file|] gc|gc|value|mode|[|]]; cbn [handle];
    unfold handleFileUpload; try apply Hpa; try (cbn; auto; fail).
  unfold handlePasteSubmit.
  destruct (trim (pastedText st)); [cbn; auto|apply Hpa].
Qed.

Lemma session_at_rest events st :
  loading st = false ->
  error st = None \/ error st = Some failureMessage ->
  loading (result (session JSON_parse events st)) = false
  /\ (error (result (session JSON_parse events st)) = None
      \/ error (result (session JSON_parse events st)) = Some failureMessage).
Proof.
  revert st. induction events as [|e events IH]; intros st Hl He; [auto|].
  cbn [session result].
  destruct (handle_at_rest e st Hl He) as [Hl' He']. now apply IH.
Qed.

(** An event sends at most one request, and only a confirmed Clear All
    removes transactions. *)
Lemma handle_sent e st : List.length (sent (handle JSON_parse e st)) <= 1.
Proof.
  destruct e as [[file|] gc|gc|value|mode|c]; cbn [handle];
    try (simpl; auto; fail).
  unfold handlePasteSubmit. destruct (trim (pastedText st)); simpl; auto.
Qed.

Lemma handle_extends e st :
  keeps e = true ->
  exists added,
    transactions (result (handle JSON_parse e st)) = transactions st ++ added.
Proof.
  assert (Hpa : forall gc input, exists added,
             transactions (result (processAnalysis JSON_parse gc input st))
             = transactions st ++ added).
  { intros gc input. rewrite processAnalysis_result.
    destruct (result (analyzeStatement _ _ _ _)) as [r|err]; cbn.
    - now exists (AnalysisResult.transactions r).
    - exists []. now rewrite app_nil_r. }
  assert (Hid : exists added, transactions st = transactions st ++ added)
    by (exists []; now rewrite app_nil_r).
  destruct e as [[file|] gc|gc|value|mode|[|]]; cbn [handle keeps];
    unfold handleFileUpload; intros Hk; try discriminate;
    try exact Hid; try apply Hpa.
  unfold handlePasteSubmit.
  destruct (trim (pastedText st)); [exact Hid|apply Hpa].
Qed.

End SessionInvariants.

(** Between events the interface is at rest.  After any sequence of
    events from the initial state, the loading flag is off (no overlay),
    and the error is either absent or the one message of
    [analyzeStatement]: the banner is shown exactly when an error is
    recorded, and the No Transactions Yet panel exactly when the list is
    empty. *)
Theorem session_at_rest_from_start
  (JSON_parse : jsstring -> option AnalysisResult) (events : list Event) :
  let st := result (session JSON_parse events initialState) in
  loading st = false
  /\ overlayShown st = false
  /\ (error st = None \/ error st = Some failureMessage)
  /\ errorShown st = match error st with Some _ => true | None => false end
  /\ emptyStateShown st = negb (resultsShown st).
Proof.
  cbv zeta.
  destruct (session_at_rest JSON_parse events initialState) as [Hl He];
    [reflexivity|now left|].
  unfold overlayShown, emptyStateShown, errorShown. rewrite Hl.
  repeat split; auto.
  - destruct He as [->| ->]; reflexivity.
  - now rewrite andb_true_r.
Qed.

(** The transaction list is append-only.  No sequence of events, from
    any state, sends more requests than it has events; and a sequence
    without a confirmed Clear All leaves the list it started from,
    followed by what was added. *)
Theorem session_appends_only
  (JSON_parse : jsstring -> option AnalysisResult) (events : list Event)
  (st : State) :
  List.length (sent (session JSON_parse events st)) <= List.length events
  /\ (forallb keeps events = true ->
      exists added,
        transactions (result (session JSON_parse events st))
        = transactions st ++ added).
Proof.
  revert st. induction events as [|e events IH]; intros st.
  - split; [simpl; lia|]. intros _. exists []. now rewrite app_nil_r.
  - cbn [session result sent].
    destruct (IH (result (handle JSON_parse e st))) as [Hlen Happ].
    split.
    + rewrite length_app. pose proof (handle_sent JSON_parse e st).
      cbn [List.length]. lia.
    + intros Hk. cbn [forallb] in Hk. apply andb_prop in Hk as [Hk Hks].
      destruct (handle_extends JSON_parse e st Hk) as (added1 & H1).
      destruct (Happ Hks) as (added2 & H2).
      exists (added1 ++ added2). now rewrite H2, H1, app_assoc.
Qed.

(** A file is analysed, the text is typed and analysed, a Clear All is
    declined. *)
Lemma session_appends_only_witness :
  let parse := reading (js "response") batch1 in
  let events :=
    [FileChanged (Some receipt) (answering (Responds (js "response")));
     TextChanged (js "12 Jan SWIGGY 450.00");
     AnalyzeClicked (answering (Throws (js "fetch failed")));
     ClearClicked false] in
  List.length (sent (session parse events initialState))
  <= List.length events
  /\ exists added,
       transactions (result (session parse events initialState))
       = transactions initialState ++ added.
Proof.
  intros parse events.
  destruct (session_appends_only parse events initialState) as [Hsent Happ].
  split; [exact Hsent|]. apply Happ. reflexivity.
Defined.

(** ** The grand total of an extended list *)

(** For amounts that are safe integers whose magnitudes add up to at
    most [Number.MAX_SAFE_INTEGER], the grand total of a list followed by
    another is the sum of their grand totals. *)
Theorem grand_total_of_extended_list (l r : list Transaction) :
  Forall (fun t => Number.isSafeInteger (Transaction.amount t)) (l ++ r) ->
  (zsum (magnitudes (l ++ r)) <= Number.MAX_SAFE_INTEGER)%Z ->
  totalSpent (l ++ r) = Number.add (totalSpent l) (totalSpent r).
Proof.
  intros Hall Hb. apply Forall_app in Hall as [Hl Hr].
  unfold magnitudes in Hb. rewrite map_app, zsum_app in Hb.
  pose proof (zsum_abs_nonneg (integers l)) as Hl0.
  pose proof (zsum_abs_nonneg (integers r)) as Hr0.
  unfold integers in Hl0, Hr0. rewrite map_map in Hl0, Hr0.
  assert (Htot : forall x,
             Forall (fun t => Number.isSafeInteger (Transaction.amount t)) x ->
             (zsum (magnitudes x) <= Number.MAX_SAFE_INTEGER)%Z ->
             totalSpent x = Number.ofZ (zsum (integers x))).
  { intros x Hx Hbx. rewrite totalSpent_sum.
    now apply sum_of_safe_integers. }
  rewrite (Htot l), (Htot r), (Htot (l ++ r));
    try assumption; try (unfold magnitudes; lia).
  - unfold Number.MAX_SAFE_INTEGER in *.
    pose proof (zsum_triangle (integers l)) as Tl.
    pose proof (zsum_triangle (integers r)) as Tr.
    unfold integers in Tl, Tr. rewrite map_map in Tl, Tr.
    rewrite Binary64.add_ofZ by (unfold integers; lia).
    unfold integers. now rewrite map_app, zsum_app.
  - now apply Forall_app.
  - unfold magnitudes. rewrite map_app, zsum_app. lia.
Qed.

Lemma grand_total_of_extended_list_witness :
  totalSpent (AnalysisResult.transactions batch1
                ++ AnalysisResult.transactions batch2)
  = Number.add (totalSpent (AnalysisResult.transactions batch1))
      (totalSpent (AnalysisResult.transactions batch2)).
Proof.
  apply (grand_total_of_extended_list (AnalysisResult.transactions batch1)
           (AnalysisResult.transactions batch2)).
  - repeat constructor; vm_compute; discriminate.
  - vm_compute. discriminate.
Defined.
